(** * raindrop-mcp: response normalisation, field projection and derived
      client operations of [src/index.ts], embedded in Rocq.

    Conventions of the embedding.
    - A JavaScript string is the list of its UTF-16 code units.
    - An object is the list of its own enumerable properties in
      [Object.entries] order.  The arguments of the functions modelled here
      are plain objects: made by [JSON.parse] or an object literal, so their
      prototype is [Object.prototype] and a key [__proto__] of the JSON text
      is an own property like any other.
    - [field in o] and [o[field]] also find the members a plain object
      inherits from [Object.prototype] (an array, from [Array.prototype]
      first).  An assignment [o["__proto__"] = v] to a fresh object runs the
      inherited setter, which adds no property and may replace the prototype
      of [o].  The prototype is no property: [Object.entries], the spread
      and rest forms and [JSON.stringify] never show it, and results are
      given by their own properties.  Reading inherited members through a
      replaced prototype is not modelled.
    - A JSON number is opaque to every function modelled here; integers
      stand for it.
    - Remote calls, the timer and the module-level watch map are effects of a
      small state-and-exception monad whose state records every call issued. *)

From Stdlib Require Import ZArith NArith Ascii String Decimal.
From stdpp Require Import base option list gmap.

Local Open Scope Z_scope.

(* ====================================================================== *)
(** ** JavaScript strings *)
(* ====================================================================== *)

Abbreviation jsstring := (list N).

(** An ASCII literal as a JavaScript string. *)
Fixpoint lit (s : string) : jsstring :=
  match s with
  | EmptyString => []
  | String a rest => N_of_ascii a :: lit rest
  end.

Definition DQUOTE : N := 34.
Definition SQUOTE : N := 39.

(** WhiteSpace and LineTerminator code units, the set [String.prototype.trim]
    removes. *)
Definition is_whitespace (c : N) : bool :=
  ((c =? 9) || (c =? 10) || (c =? 11) || (c =? 12) || (c =? 13) || (c =? 32)
   || (c =? 160) || (c =? 5760) || ((8192 <=? c) && (c <=? 8202))
   || (c =? 8232) || (c =? 8233) || (c =? 8239) || (c =? 8287)
   || (c =? 12288) || (c =? 65279))%N.

Fixpoint trimStart (s : jsstring) : jsstring :=
  match s with
  | [] => []
  | c :: rest => if is_whitespace c then trimStart rest else s
  end.

Definition trimEnd (s : jsstring) : jsstring := rev (trimStart (rev s)).

(** [s.trim()] *)
Definition trim (s : jsstring) : jsstring := trimEnd (trimStart s).

(** [s.startsWith(c)] and [s.endsWith(c)] for a one-unit pattern. *)
Definition startsWith (s : jsstring) (c : N) : bool :=
  match s with
  | [] => false
  | x :: _ => (x =? c)%N
  end.

Definition endsWith (s : jsstring) (c : N) : bool := startsWith (rev s) c.

(** [s.slice(1, -1)] *)
Definition slice_1_m1 (s : jsstring) : jsstring := removelast (tail s).

(* ====================================================================== *)
(** ** JSON values *)
(* ====================================================================== *)

#[local] Unset Elimination Schemes.

Inductive json : Type :=
  | JNull
  | JBool (b : bool)
  | JNum (n : Z)
  | JStr (s : jsstring)
  | JArr (items : list json)
  | JObj (entries : list (jsstring * json))
  | JFun (home name : jsstring).

#[local] Set Elimination Schemes.

(** [JFun home name] is no JSON value: it is the built-in function stored
    under [name] in the prototype object [home], which a property read can
    return for an inherited name. *)

(** [Record<string, unknown>]: own properties in insertion order. *)
Abbreviation obj := (list (jsstring * json)).

Definition key_title : jsstring := lit "title".
Definition key_item : jsstring := lit "item".
Definition key_items : jsstring := lit "items".
Definition key_proto : jsstring := lit "__proto__".

(** The own property [key] of [o], if there is one. *)
Fixpoint obj_get (o : obj) (key : jsstring) : option json :=
  match o with
  | [] => None
  | (k, v) :: rest => if decide (k = key) then Some v else obj_get rest key
  end.

(** [o[key] = value] for a [key] other than [__proto__]: an existing property
    keeps its place, a new one is added last. *)
Fixpoint obj_set (o : obj) (key : jsstring) (value : json) : obj :=
  match o with
  | [] => [(key, value)]
  | (k, v) :: rest =>
      if decide (k = key) then (k, value) :: rest
      else (k, v) :: obj_set rest key value
  end.

Definition obj_keys (o : obj) : list jsstring := map fst o.

(* ====================================================================== *)
(** ** Title cleaning utilities *)
(* ====================================================================== *)

(** Both ends carry the same quote character. *)
Definition quoted (s : jsstring) : bool :=
  (startsWith s DQUOTE && endsWith s DQUOTE)
  || (startsWith s SQUOTE && endsWith s SQUOTE).

Definition cleanTitle (title : jsstring) : jsstring :=
  let cleaned := trim title in
  if quoted cleaned then slice_1_m1 cleaned else cleaned.

(** The body of the [for ... of Object.entries(data)] loop: the value stored
    under [key] in the copy. *)
Definition cleanEntry (recur : json -> json) (key : jsstring) (value : json) : json :=
  match value with
  | JStr s => if decide (key = key_title) then JStr (cleanTitle s) else value
  | JArr _ | JObj _ => recur value
  | _ => value
  end.

(** One turn of the loop: the property the assignment [cleaned[key] = ...]
    adds to the copy.  For the key [__proto__] the assignment runs the setter
    inherited from [Object.prototype], and the copy gets no property. *)
Definition cleanProperty (recur : json -> json) (kv : jsstring * json)
  : option (jsstring * json) :=
  match kv with
  | (key, value) =>
      if decide (key = key_proto) then None
      else Some (key, cleanEntry recur key value)
  end.

(** [Object.entries] lists every own key once, so the copy gets its
    properties in the order of the source. *)
Fixpoint cleanTitlesInData (data : json) : json :=
  match data with
  | JArr items => JArr (map cleanTitlesInData items)
  | JObj entries => JObj (omap (cleanProperty cleanTitlesInData) entries)
  | _ => data
  end.

(* ====================================================================== *)
(** ** Errors *)
(* ====================================================================== *)

(** The [Error] values the modelled code throws or receives, by throw site. *)
Inductive Error : Type :=
  | ApiError (message : jsstring)
      (** thrown inside [request]: the remote call did not yield a result *)
  | HighlightNotFound (highlightId : jsstring) (raindropId : Z)
      (** "Highlight with ID '...' not found in raindrop ..." *)
  | ConfirmRequired
      (** "You must set confirm=true to empty the trash. ..." *)
  | TypeErrorIn
      (** the engine's TypeError for [field in value] on a non-object *).

(* ====================================================================== *)
(** ** Field filtering utilities *)
(* ====================================================================== *)

Inductive FieldPreset : Type :=
  | minimal | basic | standard | media | organization | metadata.

Definition FIELD_PRESETS (p : FieldPreset) : list jsstring :=
  map lit
    match p with
    | minimal => ["_id"; "link"; "title"]
    | basic => ["_id"; "link"; "title"; "excerpt"; "tags"; "created"; "domain"]
    | standard => ["_id"; "link"; "title"; "excerpt"; "note"; "tags"; "type";
                   "cover"; "created"; "lastUpdate"; "domain"; "important"]
    | media => ["_id"; "link"; "title"; "cover"; "media"; "type"; "file"]
    | organization => ["_id"; "title"; "tags"; "collection"; "collectionId";
                       "sort"; "removed"]
    | metadata => ["_id"; "created"; "lastUpdate"; "creatorRef"; "user";
                   "broken"; "cache"]
    end%string.

(** [type FieldFilter = string[] | FieldPreset] *)
Inductive FieldFilter : Type :=
  | Preset (name : FieldPreset)
  | FieldNames (names : list jsstring).

Definition resolveFieldList (fields : FieldFilter) : list jsstring :=
  match fields with
  | Preset name => FIELD_PRESETS name
  | FieldNames names => names
  end.

(** The methods of [Object.prototype]; its one other own property is the
    accessor [__proto__]. *)
Definition objectPrototypeMethods : list jsstring :=
  map lit
    ["constructor"; "__defineGetter__"; "__defineSetter__"; "hasOwnProperty";
     "__lookupGetter__"; "__lookupSetter__"; "isPrototypeOf";
     "propertyIsEnumerable"; "toString"; "valueOf"; "toLocaleString"]%string.

(** The function-valued own property names of [Array.prototype]
    (ECMAScript 2023); its [length] is always shadowed by the array's own. *)
Definition arrayPrototypeMethods : list jsstring :=
  map lit
    ["constructor"; "at"; "concat"; "copyWithin"; "fill"; "find"; "findIndex";
     "findLast"; "findLastIndex"; "lastIndexOf"; "pop"; "push"; "reverse";
     "shift"; "unshift"; "slice"; "sort"; "splice"; "includes"; "indexOf";
     "join"; "keys"; "entries"; "values"; "forEach"; "filter"; "flat";
     "flatMap"; "map"; "every"; "some"; "reduce"; "reduceRight";
     "toLocaleString"; "toString"; "toReversed"; "toSorted"; "toSpliced";
     "with"]%string.

(** A prototype chain: each prototype object with its methods, nearest
    first. *)
Abbreviation chain := (list (jsstring * list jsstring)).

Definition objectChain : chain :=
  [(lit "Object.prototype", objectPrototypeMethods)].

Definition arrayChain : chain :=
  (lit "Array.prototype", arrayPrototypeMethods) :: objectChain.

(** The method a read of [field] finds on the chain. *)
Fixpoint inherited (c : chain) (field : jsstring) : option json :=
  match c with
  | [] => None
  | (home, names) :: rest =>
      if decide (field ∈ names) then Some (JFun home field)
      else inherited rest field
  end.

(** [o[field]] for a [field] other than [__proto__], on an object with own
    properties [o] and prototype chain [c]; [None] exactly when [field in o]
    is false. *)
Definition readMember (c : chain) (o : obj) (field : jsstring) : option json :=
  match obj_get o field with
  | Some v => Some v
  | None => inherited c field
  end.

(** Once the inherited setter has made [v] the prototype of the object
    under construction, a further assignment to [__proto__] does not reach
    the setter if the prototype chain now ends at [null], or meets an own
    data property of that name first. *)
Definition hidesSetter (v : json) : bool :=
  match v with
  | JNull => true
  | JObj entries => bool_decide (key_proto ∈ obj_keys entries)
  | _ => false
  end.

(** One turn of the loop of [filterObjectFields]; the state is the object
    under construction, [filtered], with a flag telling whether an
    assignment to [__proto__] still runs the inherited setter.

    [__proto__] is always [in] the object [o].  When it is no own property
    of [o], the value read is the prototype of [o], which the setter
    installs in [filtered] without adding a property.  When it is an own
    property holding [v], the setter makes [v] the prototype if [v] is an
    object or [null] and ignores any other [v]; once the setter is out of
    reach, the assignment adds an ordinary property.

    Any other [field] is [in] the object when it is own or a method of the
    chain, and the assignment stores what [o[field]] reads. *)
Definition projectField (c : chain) (o : obj) (state : bool * obj) (field : jsstring)
  : bool * obj :=
  let (setter, filtered) := state in
  if decide (field = key_proto) then
    match obj_get o key_proto with
    | Some v =>
        if setter then (negb (hidesSetter v), filtered)
        else (false, obj_set filtered key_proto v)
    | None => state
    end
  else
    match readMember c o field with
    | Some v => (setter, obj_set filtered field v)
    | None => state
    end.

(** The result lists its properties in the order they were added (an
    engine enumerates array-index names before the others). *)
Definition projectFields (c : chain) (o : obj) (fieldList : list jsstring) : obj :=
  match fieldList with
  | [] => []
  | _ => (fold_left (projectField c o) fieldList (true, [])).2
  end.

(** [filterObjectFields(obj, fieldList)] for a plain object. *)
Definition filterObjectFields (o : obj) (fieldList : list jsstring) : obj :=
  projectFields objectChain o fieldList.

(** Decimal digits of an array index or length, as a property name or value. *)
Fixpoint uint_units (d : Decimal.uint) : jsstring :=
  match d with
  | Nil => []
  | D0 r => 48%N :: uint_units r
  | D1 r => 49%N :: uint_units r
  | D2 r => 50%N :: uint_units r
  | D3 r => 51%N :: uint_units r
  | D4 r => 52%N :: uint_units r
  | D5 r => 53%N :: uint_units r
  | D6 r => 54%N :: uint_units r
  | D7 r => 55%N :: uint_units r
  | D8 r => 56%N :: uint_units r
  | D9 r => 57%N :: uint_units r
  end.

Definition index_key (i : nat) : jsstring := uint_units (Nat.to_uint i).

(** Own properties of an array: its indices, then [length]. *)
Definition array_own (items : list json) : obj :=
  imap (fun i v => (index_key i, v)) items
  ++ [(lit "length", JNum (Z.of_nat (length items)))].

(** The call [filterObjectFields(value, fieldList)] on a value that the cast
    [as Record<string, unknown>] lets through: [in] throws on a primitive.
    No payload holds a function; of a function's members only those
    inherited from [Object.prototype] are listed. *)
Definition filterRecord (value : json) (fieldList : list jsstring) : Error + obj :=
  match fieldList with
  | [] => inr []
  | _ =>
      match value with
      | JObj o => inr (filterObjectFields o fieldList)
      | JArr items => inr (projectFields arrayChain (array_own items) fieldList)
      | JFun _ _ => inr (filterObjectFields [] fieldList)
      | _ => inl TypeErrorIn
      end
  end.

(** [data.map(item => filterObjectFields(item, fieldList))]; the first throw
    ends the traversal. *)
Fixpoint filterRecords (items : list json) (fieldList : list jsstring)
  : Error + list json :=
  match items with
  | [] => inr []
  | item :: rest =>
      match filterRecord item fieldList with
      | inl e => inl e
      | inr o =>
          match filterRecords rest fieldList with
          | inl e => inl e
          | inr os => inr (JObj o :: os)
          end
      end
  end.

(** [filterFields(data, fields)]; [fields] absent is [None]. *)
Definition filterFields (data : json) (fields : option FieldFilter) : Error + json :=
  match fields with
  | None => inr data
  | Some f =>
      let fieldList := resolveFieldList f in
      match data with
      | JArr items =>
          match filterRecords items fieldList with
          | inl e => inl e
          | inr os => inr (JArr os)
          end
      | _ =>
          match filterRecord data fieldList with
          | inl e => inl e
          | inr o => inr (JObj o)
          end
      end
  end.

(** [const { item, items, ...metadata } = data] *)
Definition rest_without_payload (data : obj) : obj :=
  filter (fun kv => kv.1 ≠ key_item ∧ kv.1 ≠ key_items) data.

Definition filterApiResponse (data : obj) (fields : option FieldFilter) : Error + obj :=
  match fields with
  | None => inr data
  | Some f =>
      match resolveFieldList f with
      | [] => inr (rest_without_payload data)
      | _ =>
          match obj_get data key_items with
          | Some (JArr items) =>
              match filterFields (JArr items) fields with
              | inl e => inl e
              | inr v => inr (obj_set data key_items v)
              end
          | _ =>
              match obj_get data key_item with
              | Some (JObj o) =>
                  match filterFields (JObj o) fields with
                  | inl e => inl e
                  | inr v => inr (obj_set data key_item v)
                  end
              | Some (JArr l) =>
                  match filterFields (JArr l) fields with
                  | inl e => inl e
                  | inr v => inr (obj_set data key_item v)
                  end
              | _ => inr data
              end
          end
      end
  end.

(* ====================================================================== *)
(** ** API entities and the remote service *)
(* ====================================================================== *)

Definition TRASH_COLLECTION_ID : Z := -99.

(** An ISO-8601 string is represented by the time value of [new Date(s)] in
    milliseconds; [None] is an Invalid Date, whose comparisons are all false. *)
Abbreviation isotime := (option Z).

(** [interface Highlight]: the members the modelled code reads or writes;
    [created], [lastUpdate], [raindropRef] and further keys stay in
    [hl_other]. *)
Record Highlight : Type := mkHighlight {
  hl_id : jsstring;
  hl_text : jsstring;
  hl_note : option jsstring;
  hl_color : option jsstring;
  hl_other : obj
}.

(** [interface Raindrop], likewise. [rd_created] is [None] when the member is
    absent or the empty string (both falsy); [rd_highlights] is [None] when
    the member is absent. *)
Record Raindrop : Type := mkRaindrop {
  rd_created : option isotime;
  rd_highlights : option (list Highlight);
  rd_other : obj
}.

Record RaindropResponse : Type := mkRaindropResponse {
  rr_result : bool;
  rr_item : Raindrop
}.

Record RaindropsResponse : Type := mkRaindropsResponse {
  rs_result : bool;
  rs_items : list Raindrop;
  rs_other : obj
}.

(** The body [{ highlights: updatedHighlights }] of a highlight write-back. *)
Record RaindropUpdate : Type := mkRaindropUpdate {
  ru_highlights : list Highlight
}.

(** The body the create paths build: [link] and the optional members. *)
Record NewRaindrop : Type := mkNewRaindrop {
  nr_link : jsstring;
  nr_title : option jsstring;
  nr_excerpt : option jsstring;
  nr_note : option jsstring;
  nr_tags : option (list jsstring);
  nr_collection : option Z;
  nr_important : option bool;
  nr_pleaseParse : bool
}.

(** What the process does to the outside, in order: the HTTP requests of the
    client methods and the timer. *)
Inductive event : Type :=
  | GetRaindrop (id : Z)                                (* GET /raindrop/id *)
  | UpdateRaindrop (id : Z) (data : RaindropUpdate)     (* PUT /raindrop/id *)
  | CreateRaindrop (data : NewRaindrop)                 (* POST /raindrop *)
  | DeleteCollection (id : Z)                           (* DELETE /collection/id *)
  | GetRaindrops (collectionId : Z) (params : obj)      (* GET /raindrops/id?params *)
  | Delay (ms : Z).                                     (* delay(ms) *)

(** The remote service behind [request]: for the events so far and the call
    at hand, the parsed and normalised payload, or the [Error] thrown. *)
Record Remote : Type := mkRemote {
  on_getRaindrop : list event -> Z -> Error + RaindropResponse;
  on_updateRaindrop : list event -> Z -> RaindropUpdate -> Error + RaindropResponse;
  on_createRaindrop : list event -> NewRaindrop -> Error + RaindropResponse;
  on_deleteCollection : list event -> Z -> Error + bool;
  on_getRaindrops : list event -> Z -> obj -> Error + RaindropsResponse
}.

(** Process state: the events issued and the module-level [watchTimestamps]. *)
Record world : Type := mkWorld {
  issued : list event;
  watchTimestamps : gmap Z isotime
}.

(* ====================================================================== *)
(** ** The effect monad *)
(* ====================================================================== *)

Definition M (A : Type) : Type := world -> (Error + A) * world.

Definition ret {A} (a : A) : M A := fun w => (inr a, w).

Definition throw {A} (e : Error) : M A := fun w => (inl e, w).

Definition bind {A B} (m : M A) (k : A -> M B) : M B :=
  fun w =>
    match m w with
    | (inl e, w') => (inl e, w')
    | (inr a, w') => k a w'
    end.

(** [try { m } catch (error) { ... }]: the outcome handed to the caller. *)
Definition tryCatch {A} (m : M A) : M (Error + A) :=
  fun w => match m w with (r, w') => (inr r, w') end.

Definition emit (e : event) : M unit :=
  fun w => (inr tt, mkWorld (issued w ++ [e]) (watchTimestamps w)).

(** An HTTP call: the remote answers from the events before it. *)
Definition call {A} (e : event) (answer : list event -> Error + A) : M A :=
  fun w => (answer (issued w), mkWorld (issued w ++ [e]) (watchTimestamps w)).

Definition getWatch (collectionId : Z) : M (option isotime) :=
  fun w => (inr (watchTimestamps w !! collectionId), w).

Definition setWatch (collectionId : Z) (t : isotime) : M unit :=
  fun w => (inr tt, mkWorld (issued w) (<[collectionId := t]> (watchTimestamps w))).

Declare Scope client_scope.
Delimit Scope client_scope with client.
Notation "'let*' x := m 'in' k" := (bind m (fun x => k))
  (at level 10, x name, m at level 100, k at level 200) : client_scope.
Notation "m ;;; k" := (bind m (fun _ => k))
  (at level 100, k at level 200, right associativity) : client_scope.

(* ====================================================================== *)
(** ** RaindropClient *)
(* ====================================================================== *)

(** [updates: { text?: string; color?: string; note?: string }] *)
Record HighlightUpdates : Type := mkHighlightUpdates {
  up_text : option jsstring;
  up_color : option jsstring;
  up_note : option jsstring
}.

Record WatchResult : Type := mkWatchResult {
  wr_collectionId : Z;
  wr_since : isotime;
  wr_until : isotime;
  wr_newItems : list Raindrop;
  wr_count : nat
}.

(** [highlights.findIndex(h => h._id === highlightId)]; [None] is [-1]. *)
Fixpoint findIndex (highlights : list Highlight) (highlightId : jsstring) : option nat :=
  match highlights with
  | [] => None
  | h :: rest =>
      if decide (hl_id h = highlightId) then Some 0%nat
      else option_map S (findIndex rest highlightId)
  end.

(** [(raindrop.item.highlights as Highlight[]) || []] *)
Definition existingHighlightsOf (raindrop : RaindropResponse) : list Highlight :=
  match rd_highlights (rr_item raindrop) with
  | Some hs => hs
  | None => []
  end.

(** The three guarded assignments of [updateHighlight]. *)
Definition applyUpdates (h : Highlight) (updates : HighlightUpdates) : Highlight :=
  let h1 := match up_text updates with
            | Some t => mkHighlight (hl_id h) t (hl_note h) (hl_color h) (hl_other h)
            | None => h
            end in
  let h2 := match up_color updates with
            | Some c => mkHighlight (hl_id h1) (hl_text h1) (hl_note h1) (Some c) (hl_other h1)
            | None => h1
            end in
  match up_note updates with
  | Some n => mkHighlight (hl_id h2) (hl_text h2) (Some n) (hl_color h2) (hl_other h2)
  | None => h2
  end.

(** [{ ...h, text: "" }] *)
Definition tombstone (h : Highlight) : Highlight :=
  mkHighlight (hl_id h) [] (hl_note h) (hl_color h) (hl_other h).

(** [created && created > sinceDate] for one fetched item. *)
Definition createdAfter (sinceDate : isotime) (item : Raindrop) : bool :=
  match rd_created item with
  | Some (Some created) =>
      match sinceDate with
      | Some floor => floor <? created
      | None => false
      end
  | _ => false
  end.

Definition watchParams : obj :=
  [(lit "sort", JStr (lit "-created")); (lit "perpage", JNum 50)].

Section Client.

Context (remote : Remote).

Local Open Scope client_scope.

Definition getRaindrops (collectionId : Z) (params : obj) : M RaindropsResponse :=
  call (GetRaindrops collectionId params)
       (fun before => on_getRaindrops remote before collectionId params).

Definition getRaindrop (id : Z) : M RaindropResponse :=
  call (GetRaindrop id) (fun before => on_getRaindrop remote before id).

Definition createRaindrop (data : NewRaindrop) : M RaindropResponse :=
  call (CreateRaindrop data) (fun before => on_createRaindrop remote before data).

Definition updateRaindrop (id : Z) (data : RaindropUpdate) : M RaindropResponse :=
  call (UpdateRaindrop id data)
       (fun before => on_updateRaindrop remote before id data).

Definition updateHighlight (raindropId : Z) (highlightId : jsstring)
    (updates : HighlightUpdates) : M RaindropResponse :=
  let* raindrop := getRaindrop raindropId in
  let existingHighlights := existingHighlightsOf raindrop in
  match findIndex existingHighlights highlightId with
  | None => throw (HighlightNotFound highlightId raindropId)
  | Some highlightIndex =>
      (* the index found is in range, where the assignment to the copy
         replaces that one element *)
      let updatedHighlights :=
        alter (fun h => applyUpdates h updates) highlightIndex existingHighlights in
      updateRaindrop raindropId (mkRaindropUpdate updatedHighlights)
  end.

Definition deleteHighlight (raindropId : Z) (highlightId : jsstring)
    : M RaindropResponse :=
  let* raindrop := getRaindrop raindropId in
  let existingHighlights := existingHighlightsOf raindrop in
  match findIndex existingHighlights highlightId with
  | None => throw (HighlightNotFound highlightId raindropId)
  | Some highlightIndex =>
      let updatedHighlights :=
        alter tombstone highlightIndex existingHighlights in
      updateRaindrop raindropId (mkRaindropUpdate updatedHighlights)
  end.

Definition emptyTrash : M bool :=
  call (DeleteCollection TRASH_COLLECTION_ID)
       (fun before => on_deleteCollection remote before TRASH_COLLECTION_ID).

(** [now] is the time value of [new Date()] read on entry; [since] is [None]
    when the argument is absent or the empty string, [resetWatch] is [None]
    when absent. A stored cursor is an earlier [now], hence a non-empty
    string, so [get(collectionId) || now] falls back only when none is
    stored. *)
Definition watchCollection (now : Z) (collectionId : Z) (since : option isotime)
    (resetWatch : option bool) : M WatchResult :=
  match resetWatch with
  | Some true =>
      setWatch collectionId (Some now) ;;;
      ret (mkWatchResult collectionId (Some now) (Some now) [] 0)
  | _ =>
      let* checkSince :=
        match since with
        | Some s => ret s
        | None =>
            let* stored := getWatch collectionId in
            ret (match stored with Some t => t | None => Some now end)
        end in
      let* result := getRaindrops collectionId watchParams in
      let newItems := filter (fun item => createdAfter checkSince item = true)
                             (rs_items result) in
      setWatch collectionId (Some now) ;;;
      ret (mkWatchResult collectionId checkSince (Some now) newItems (length newItems))
  end.

End Client.

(* ====================================================================== *)
(** ** Response helpers and tool handlers *)
(* ====================================================================== *)

Record BulkItem : Type := mkBulkItem {
  bi_link : jsstring;
  bi_title : option jsstring;
  bi_excerpt : option jsstring;
  bi_note : option jsstring;
  bi_tags : option (list jsstring);
  bi_collectionId : option Z;
  bi_important : option bool;
  bi_pleaseParse : option bool
}.

Record BulkError : Type := mkBulkError {
  be_index : nat;
  be_link : jsstring;
  be_error : Error
}.

(** The local [results] object of the bulk handler. *)
Record BulkResults : Type := mkBulkResults {
  total : nat;
  successful : nat;
  failed : nat;
  created : list Raindrop;
  errors : list BulkError
}.

(** The two object literals the bulk handler serialises. *)
Inductive BulkReport : Type :=
  | MinimalReport (success : bool) (created failed total : nat)
  | FullReport (success : bool) (total successful failed : nat)
      (created : list Raindrop) (errors : option (list BulkError)).

Inductive payload : Type :=
  | OfRaindrop (r : RaindropResponse)
  | OfWatch (r : WatchResult)
  | OfBulk (r : BulkReport).

Inductive Text : Type :=
  | Plain (text : jsstring)
  | JsonOf (data : payload)        (* JSON.stringify(data, null, 2) *)
  | ErrorMessage (error : Error).  (* `Error: ${message}` *)

Record ToolResponse : Type := mkToolResponse {
  content : Text;
  isError : bool
}.

Definition createSuccessResponse (text : Text) : ToolResponse :=
  mkToolResponse text false.

Definition createJsonResponse (data : payload) : ToolResponse :=
  createSuccessResponse (JsonOf data).

Definition createErrorResponse (error : Error) : ToolResponse :=
  mkToolResponse (ErrorMessage error) true.

Definition handleMinimalResponse (data : payload) (minimal : bool) : ToolResponse :=
  if minimal then createSuccessResponse (Plain (lit "ok")) else createJsonResponse data.

(** A string member copied only when truthy, that is non-empty. *)
Definition truthyString (s : option jsstring) : option jsstring :=
  match s with
  | Some [] => None
  | _ => s
  end.

(** The [data] literal and its seven guarded assignments. *)
Definition bulkData (raindrop : BulkItem) : NewRaindrop :=
  mkNewRaindrop (bi_link raindrop)
    (truthyString (bi_title raindrop))
    (truthyString (bi_excerpt raindrop))
    (truthyString (bi_note raindrop))
    (bi_tags raindrop)
    (bi_collectionId raindrop)
    (bi_important raindrop)
    (match bi_pleaseParse raindrop with Some true => true | _ => false end).

Definition recordSuccess (results : BulkResults) (item : Raindrop) : BulkResults :=
  mkBulkResults (total results) (S (successful results)) (failed results)
    (created results ++ [item]) (errors results).

Definition recordFailure (results : BulkResults) (i : nat) (raindrop : BulkItem)
    (error : Error) : BulkResults :=
  mkBulkResults (total results) (successful results) (S (failed results))
    (created results)
    (errors results ++ [mkBulkError i (bi_link raindrop) error]).

Definition bulkReport (results : BulkResults) (minimal : bool) : BulkReport :=
  if minimal then
    MinimalReport (Nat.eqb (failed results) 0) (successful results)
      (failed results) (total results)
  else
    FullReport (Nat.eqb (failed results) 0) (total results) (successful results)
      (failed results) (created results)
      (match errors results with [] => None | es => Some es end).

Definition trashEmptied : jsstring :=
  lit "Trash emptied successfully. All items have been permanently deleted.".

Section Tools.

Context (remote : Remote).

Local Open Scope client_scope.

Definition toolHandler {T} (handler : T -> M ToolResponse) (params : T)
    : M ToolResponse :=
  let* outcome := tryCatch (handler params) in
  match outcome with
  | inr response => ret response
  | inl error => ret (createErrorResponse error)
  end.

(** The [for] loop of create-raindrops-bulk from index [i] on. *)
Fixpoint bulkLoop (delayMs : Z) (continueOnError : bool) (i : nat)
    (raindrops : list BulkItem) (results : BulkResults) : M BulkResults :=
  match raindrops with
  | [] => ret results
  | raindrop :: rest =>
      let* outcome :=
        tryCatch ((if (0 <? i)%nat && (0 <? delayMs) then emit (Delay delayMs) else ret tt) ;;;
                  createRaindrop remote (bulkData raindrop)) in
      match outcome with
      | inr result =>
          bulkLoop delayMs continueOnError (S i) rest
            (recordSuccess results (rr_item result))
      | inl error =>
          let results' := recordFailure results i raindrop error in
          if continueOnError
          then bulkLoop delayMs continueOnError (S i) rest results'
          else ret results'
      end
  end.

Definition bulkRun (raindrops : list BulkItem) (delayMs : Z)
    (continueOnError : bool) : M BulkResults :=
  bulkLoop delayMs continueOnError 0 raindrops
    (mkBulkResults (length raindrops) 0 0 [] []).

Definition createRaindropsBulkTool (raindrops : list BulkItem) (delayMs : Z)
    (continueOnError minimal : bool) : M ToolResponse :=
  toolHandler
    (fun _ : unit =>
       let* results := bulkRun raindrops delayMs continueOnError in
       ret (createJsonResponse (OfBulk (bulkReport results minimal))))
    tt.

Definition updateHighlightTool (raindropId : Z) (highlightId : jsstring)
    (text color note : option jsstring) (minimal : bool) : M ToolResponse :=
  toolHandler
    (fun _ : unit =>
       let updates := mkHighlightUpdates text color note in
       let* result := updateHighlight remote raindropId highlightId updates in
       ret (handleMinimalResponse (OfRaindrop result) minimal))
    tt.

Definition deleteHighlightTool (raindropId : Z) (highlightId : jsstring)
    (minimal : bool) : M ToolResponse :=
  toolHandler
    (fun _ : unit =>
       let* result := deleteHighlight remote raindropId highlightId in
       ret (handleMinimalResponse (OfRaindrop result) minimal))
    tt.

(** [confirm] as the handler's test [!confirm] sees it: absent, false or
    true. *)
Definition emptyTrashTool (confirm : option bool) : M ToolResponse :=
  toolHandler
    (fun confirm : option bool =>
       match confirm with
       | Some true =>
           emptyTrash remote ;;;
           ret (createSuccessResponse (Plain trashEmptied))
       | _ => throw ConfirmRequired
       end)
    confirm.

Definition watchCollectionTool (now : Z) (collectionId : Z)
    (since : option isotime) (resetWatch : option bool) : M ToolResponse :=
  toolHandler
    (fun _ : unit =>
       let* result := watchCollection remote now collectionId since resetWatch in
       ret (createJsonResponse (OfWatch result)))
    tt.

End Tools.

(* ====================================================================== *)
(** ** Vocabulary of the properties *)
(* ====================================================================== *)

(** Structural induction on JSON values, through arrays and objects. *)
Section JsonInduction.

Variable P : json -> Prop.
Hypothesis P_null : P JNull.
Hypothesis P_bool : forall b, P (JBool b).
Hypothesis P_num : forall n, P (JNum n).
Hypothesis P_str : forall s, P (JStr s).
Hypothesis P_arr : forall items, Forall P items -> P (JArr items).
Hypothesis P_obj : forall entries, Forall (fun kv => P kv.2) entries -> P (JObj entries).
Hypothesis P_fun : forall home name, P (JFun home name).

Fixpoint json_ind (x : json) : P x :=
  match x with
  | JNull => P_null
  | JBool b => P_bool b
  | JNum n => P_num n
  | JStr s => P_str s
  | JArr items =>
      P_arr items
        ((fix all (l : list json) : Forall P l :=
            match l with
            | [] => @List.Forall_nil _ P
            | y :: l' => @List.Forall_cons _ P y l' (json_ind y) (all l')
            end) items)
  | JObj entries =>
      P_obj entries
        ((fix all (l : list (jsstring * json)) : Forall (fun kv => P kv.2) l :=
            match l with
            | [] => @List.Forall_nil _ _
            | kv :: l' => @List.Forall_cons _ (fun kv => P kv.2) kv l' (json_ind kv.2) (all l')
            end) entries)
  | JFun home name => P_fun home name
  end.

End JsonInduction.

(** A title on which [cleanTitle] has nothing left to do: no whitespace at
    either end, and it does not both start and end with the same quote
    character.  A title that is one quote character starts and ends with
    it, so it is not settled. *)
Definition leadingSpace (s : jsstring) : bool :=
  match s with
  | [] => false
  | c :: _ => is_whitespace c
  end.

Definition settled (s : jsstring) : bool :=
  negb (leadingSpace s) && negb (leadingSpace (rev s)) && negb (quoted s).

(** Every string stored under a key named [title], at any depth, is settled
    after one cleaning. *)
Fixpoint titlesSettle (x : json) : bool :=
  match x with
  | JArr items => forallb titlesSettle items
  | JObj entries =>
      forallb (fun kv => match kv with
                         | (key, JStr s) =>
                             if decide (key = key_title) then settled (cleanTitle s) else true
                         | (_, value) => titlesSettle value
                         end) entries
  | _ => true
  end.

(** [sameButTitles x y]: [y] has the shape of [x] (arrays of equal length
    related element by element, in order; objects with the same keys in the
    same order; equal primitives) and may differ from it only in string
    values stored under the key [title]. *)
#[local] Unset Elimination Schemes.

Inductive sameButTitles : json -> json -> Prop :=
  | sbt_null : sameButTitles JNull JNull
  | sbt_bool b : sameButTitles (JBool b) (JBool b)
  | sbt_num n : sameButTitles (JNum n) (JNum n)
  | sbt_str s : sameButTitles (JStr s) (JStr s)
  | sbt_arr xs ys :
      Forall2 sameButTitles xs ys -> sameButTitles (JArr xs) (JArr ys)
  | sbt_obj es fs :
      Forall2 (fun e f =>
                 e.1 = f.1 /\
                 (sameButTitles e.2 f.2 \/
                  (e.1 = key_title /\ exists s t, e.2 = JStr s /\ f.2 = JStr t)))
              es fs ->
      sameButTitles (JObj es) (JObj fs)
  | sbt_fun home name : sameButTitles (JFun home name) (JFun home name).

#[local] Set Elimination Schemes.

(** The timer events before a request that is not the first. *)
Definition pause (delayMs : Z) : list event :=
  if 0 <? delayMs then [Delay delayMs] else [].

(** The timer events before the request of item number [i]: none before the
    first. *)
Definition gap (delayMs : Z) (i : nat) : list event :=
  match i with
  | O => []
  | S _ => pause delayMs
  end.

(** The events of attempting the items [datas] in order, the first of them
    being item number [i] of the input. *)
Fixpoint bulkEvents (delayMs : Z) (i : nat) (datas : list NewRaindrop) : list event :=
  match datas with
  | [] => []
  | d :: rest => gap delayMs i ++ CreateRaindrop d :: bulkEvents delayMs (S i) rest
  end.

(** The bodies of the create calls among some events. *)
Definition createCalls (evs : list event) : list NewRaindrop :=
  omap (fun e => match e with CreateRaindrop d => Some d | _ => None end) evs.

Definition updateCalls (evs : list event) : list (Z * RaindropUpdate) :=
  omap (fun e => match e with UpdateRaindrop id d => Some (id, d) | _ => None end) evs.

Definition deleteCalls (evs : list event) : list Z :=
  omap (fun e => match e with DeleteCollection id => Some id | _ => None end) evs.

(** The summary members of either report literal. *)
Definition report_success (r : BulkReport) : bool :=
  match r with MinimalReport s _ _ _ => s | FullReport s _ _ _ _ _ => s end.

Definition report_successful (r : BulkReport) : nat :=
  match r with MinimalReport _ c _ _ => c | FullReport _ _ s _ _ _ => s end.

Definition report_failed (r : BulkReport) : nat :=
  match r with MinimalReport _ _ f _ => f | FullReport _ _ _ f _ _ => f end.

Definition report_total (r : BulkReport) : nat :=
  match r with MinimalReport _ _ _ t => t | FullReport _ t _ _ _ _ => t end.

(* ====================================================================== *)
(** ** Sample services, for examples *)
(* ====================================================================== *)

Definition unreachable : Error := ApiError (lit "API request failed: 503").

Definition emptyWorld : world := mkWorld [] ∅.

Definition sampleHighlight (id text : string) : Highlight :=
  mkHighlight (lit id) (lit text) None (Some (lit "yellow"))
    [(lit "created", JStr (lit "2024-01-01T00:00:00.000Z"))].

Definition bookmarkWith (highlights : list Highlight) : RaindropResponse :=
  mkRaindropResponse true
    (mkRaindrop (Some (Some 500)) (Some highlights)
       [(lit "_id", JNum 1); (lit "link", JStr (lit "https://example.com"))]).

(** A service holding one bookmark with the highlights [hs]; an update
    answers with the array written. *)
Definition highlightService (hs : list Highlight) : Remote :=
  mkRemote
    (fun _ _ => inr (bookmarkWith hs))
    (fun _ _ data => inr (bookmarkWith (ru_highlights data)))
    (fun _ _ => inl unreachable)
    (fun _ _ => inr true)
    (fun _ _ _ => inl unreachable).

(** A service whose create call fails exactly when [failing] holds of the
    number of create calls issued before it. *)
Definition createService (failing : nat -> bool) : Remote :=
  mkRemote
    (fun _ _ => inl unreachable)
    (fun _ _ _ => inl unreachable)
    (fun before data =>
       if failing (length (createCalls before)) then inl unreachable
       else inr (mkRaindropResponse true
                   (mkRaindrop None None [(lit "link", JStr (nr_link data))])))
    (fun _ _ => inl unreachable)
    (fun _ _ _ => inl unreachable).

(** A service whose listing of any collection is [items]. *)
Definition listingService (items : list Raindrop) : Remote :=
  mkRemote
    (fun _ _ => inl unreachable)
    (fun _ _ _ => inl unreachable)
    (fun _ _ => inl unreachable)
    (fun _ _ => inl unreachable)
    (fun _ _ _ => inr (mkRaindropsResponse true items [(lit "count", JNum 1)])).

Definition bookmarkCreatedAt (ms : Z) : Raindrop :=
  mkRaindrop (Some (Some ms)) None [(lit "_id", JNum 7)].

Definition linkOnly (link : string) : BulkItem :=
  mkBulkItem (lit link) None None None None None None (Some true).

(* ====================================================================== *)
(** ** Further vocabulary *)
(* ====================================================================== *)

(** Every string stored under a key named [title], at any depth, is settled
    as it stands. *)
Fixpoint titlesClean (x : json) : bool :=
  match x with
  | JArr items => forallb titlesClean items
  | JObj entries =>
      forallb (fun kv => match kv with
                         | (key, JStr s) =>
                             if decide (key = key_title) then settled s else true
                         | (_, value) => titlesClean value
                         end) entries
  | _ => true
  end.

(** A value on which [in] throws: [null] or a primitive. *)
Definition isPrimitive (v : json) : bool :=
  match v with
  | JArr _ | JObj _ | JFun _ _ => false
  | _ => true
  end.

(** No object of the value, at any depth, has an own key [__proto__]. *)
Fixpoint noProtoKey (x : json) : bool :=
  match x with
  | JArr items => forallb noProtoKey items
  | JObj entries =>
      forallb (fun kv => match kv with
                         | (key, value) =>
                             bool_decide (key ≠ key_proto) && noProtoKey value
                         end) entries
  | _ => true
  end.

(** The waits among some events. *)
Definition delayCalls (evs : list event) : list Z :=
  omap (fun e => match e with Delay ms => Some ms | _ => None end) evs.

(** An error entry of the bulk summary names an item of the input: its
    index is in range and its link is that item's. *)
Definition errorNamesItem (raindrops : list BulkItem) (e : BulkError) : Prop :=
  exists raindrop, raindrops !! be_index e = Some raindrop
                   /\ be_link e = bi_link raindrop.

(* ====================================================================== *)
(** ** Response handling *)
(* ====================================================================== *)

(** What [handleResponse] reads of a fetch [Response]; [resp_json] is [None]
    when [response.json()] rejects. *)
Record Response : Type := mkResponse {
  resp_ok : bool;
  resp_status : Z;
  resp_statusText : jsstring;
  resp_json : option json
}.

(** The errors leaving [handleResponse], by origin. [ServiceMessage v] is
    [new Error(v)] for the truthy member [v] of the payload; its message is
    the string conversion of [v]. *)
Inductive ResponseError : Type :=
  | JsonParseFailed (status : Z) (statusText : jsstring)
      (** `Failed to parse JSON response: ${status} ${statusText}` *)
  | ServiceMessage (message : json)
  | RequestFailed (status : Z)
      (** `API request failed: ${status}` *)
  | NullPayload
      (** the engine's TypeError for reading a member of [null] *).

(** JavaScript truthiness of a JSON value. *)
Definition truthy (v : json) : bool :=
  match v with
  | JNull => false
  | JBool b => b
  | JNum n => negb (n =? 0)
  | JStr s => match s with [] => false | _ => true end
  | JArr _ | JObj _ | JFun _ _ => true
  end.

(** [v.key] for a value that is not [null] and a key that is no index, not
    [length] and not the name of an inherited member: an own property of an
    object, absent elsewhere. *)
Definition memberOf (v : json) (key : jsstring) : option json :=
  match v with
  | JObj o => obj_get o key
  | _ => None
  end.

(** [error.errorMessage || error.error || `API request failed: ...`] *)
Definition failureOf (parsedData : json) (status : Z) : ResponseError :=
  match memberOf parsedData (lit "errorMessage") with
  | Some m => if truthy m then ServiceMessage m else
      match memberOf parsedData (lit "error") with
      | Some e => if truthy e then ServiceMessage e else RequestFailed status
      | None => RequestFailed status
      end
  | None =>
      match memberOf parsedData (lit "error") with
      | Some e => if truthy e then ServiceMessage e else RequestFailed status
      | None => RequestFailed status
      end
  end.

(** [parsedData.result === false] *)
Definition resultIsFalse (parsedData : json) : bool :=
  match memberOf parsedData (lit "result") with
  | Some (JBool false) => true
  | _ => false
  end.

Definition handleResponse (response : Response) : ResponseError + json :=
  match resp_json response with
  | None => inl (JsonParseFailed (resp_status response) (resp_statusText response))
  | Some JNull => inl NullPayload
  | Some parsedData =>
      if negb (resp_ok response) || resultIsFalse parsedData
      then inl (failureOf parsedData (resp_status response))
      else inr (cleanTitlesInData parsedData)
  end.

(* ====================================================================== *)
(** ** list-tags: client-side pagination *)
(* ====================================================================== *)

(** [Array.prototype.slice] on integer bounds: a negative bound counts from
    the end, and both are clamped to the array. *)
Definition sliceIndex (len : nat) (k : Z) : nat :=
  if k <? 0 then Z.to_nat (Z.max (Z.of_nat len + k) 0)
  else Z.to_nat (Z.min k (Z.of_nat len)).

Definition slice {A} (l : list A) (start finish : Z) : list A :=
  let k := sliceIndex (length l) start in
  let final := sliceIndex (length l) finish in
  take (final - k) (drop k l).

(** [TagsResponse] as the handler reads it; [tg_items] is [None] when the
    member is absent. *)
Record TagsResponse : Type := mkTagsResponse {
  tg_result : bool;
  tg_items : option (list json)
}.

(** [allItems.slice(startIndex, endIndex)] for integer [page] and
    [perpage]. *)
Definition paginatedItems (result : TagsResponse) (page perpage : Z) : list json :=
  let allItems := default [] (tg_items result) in
  let startIndex := page * perpage in
  let endIndex := startIndex + perpage in
  slice allItems startIndex endIndex.

(** [endIndex < totalCount] *)
Definition hasMore (result : TagsResponse) (page perpage : Z) : bool :=
  page * perpage + perpage <? Z.of_nat (length (default [] (tg_items result))).

(** The object literal [paginatedResult]. *)
Definition paginatedResult (result : TagsResponse) (page perpage : Z) : obj :=
  [(lit "result", JBool (tg_result result));
   (lit "items", JArr (paginatedItems result page perpage));
   (lit "count", JNum (Z.of_nat (length (paginatedItems result page perpage))));
   (lit "total", JNum (Z.of_nat (length (default [] (tg_items result)))));
   (lit "page", JNum page);
   (lit "perpage", JNum perpage);
   (lit "hasMore", JBool (hasMore result page perpage))].

(** The list-tags handler after [await client.getTags(collectionId)], up to
    the value it serialises; absent [page] and [perpage] default to 0 and
    25. *)
Definition listTagsResult (result : TagsResponse) (page perpage : option Z)
    (fields : option (list jsstring)) : Error + obj :=
  filterApiResponse (paginatedResult result (default 0 page) (default 25 perpage))
    (FieldNames <$> fields).

(* ====================================================================== *)
(** ** Further derived operations *)
(* ====================================================================== *)

(** What these operations throw: the error of a remote call, or one of
    their own checks. *)
Inductive Thrown : Type :=
  | FromRequest (error : Error)
  | CacheNotAvailable (raindropId : Z) (status : option json)
      (** "Cache not available for raindrop ... Status: ..."; [None] prints
          as "not found" *)
  | UnexpectedCacheResponse (status : Z)
  | FileNotFound
  | FileTooLarge (size : Z)
  | UnsupportedFileType (ext : jsstring)
  | TagsRequired
      (** "Parameter 'tags' is required and must be a non-empty array ..." *)
  | NewTagRequired
      (** "Parameter 'newTag' is required and cannot be empty" *).

(** The response to the cache request made with [redirect: "manual"]:
    status and [Location] header. *)
Record RedirectResponse : Type := mkRedirectResponse {
  redirect_status : Z;
  redirect_location : option jsstring
}.

Record CacheResponse : Type := mkCacheResponse {
  cr_url : jsstring;
  cr_status : jsstring
}.

Inductive cacheCall : Type :=
  | CacheGetRaindrop (id : Z)   (* GET /raindrop/id *)
  | CacheFetch (id : Z).        (* GET /raindrop/id/cache, redirect: "manual" *)

(** [getCacheUrl] over the answers of its two requests; the calls made are
    returned with the outcome. *)
Definition getCacheUrl
    (getRaindropAnswer : Error + RaindropResponse)
    (cacheAnswer : Error + RedirectResponse)
    (raindropId : Z) : (Thrown + CacheResponse) * list cacheCall :=
  match getRaindropAnswer with
  | inl error => (inl (FromRequest error), [CacheGetRaindrop raindropId])
  | inr raindrop =>
      let cache := obj_get (rd_other (rr_item raindrop)) (lit "cache") in
      let ready :=
        match cache with
        | Some c => truthy c
                    && match memberOf c (lit "status") with
                       | Some (JStr status) => bool_decide (status = lit "ready")
                       | _ => false
                       end
        | None => false
        end in
      if negb ready then
        (inl (CacheNotAvailable raindropId
                match cache with
                | Some c => if truthy c
                            then match memberOf c (lit "status") with
                                 | Some st => if truthy st then Some st else None
                                 | None => None
                                 end
                            else None
                | None => None
                end),
         [CacheGetRaindrop raindropId])
      else
        match cacheAnswer with
        | inl error =>
            (inl (FromRequest error), [CacheGetRaindrop raindropId; CacheFetch raindropId])
        | inr response =>
            (match redirect_location response with
             | Some (c :: location) =>
                 if redirect_status response =? 307
                 then inr (mkCacheResponse (c :: location) (lit "ready"))
                 else inl (UnexpectedCacheResponse (redirect_status response))
             | _ => inl (UnexpectedCacheResponse (redirect_status response))
             end,
             [CacheGetRaindrop raindropId; CacheFetch raindropId])
        end
  end.

(** What [uploadFile] learns of the file before it sends anything:
    [existsSync(filePath)], [statSync(filePath).size] and
    [extname(filePath).toLowerCase()]. *)
Record FileInfo : Type := mkFileInfo {
  fi_exists : bool;
  fi_size : Z;
  fi_ext : jsstring
}.

Definition maxSize : Z := 300 * 1024 * 1024.

(** The [mimeTypes] literal.  An extension is empty or starts with a dot, so
    [mimeTypes[ext]] never reads an inherited member. *)
Definition mimeTypes : obj :=
  [(lit ".pdf", JStr (lit "application/pdf"));
   (lit ".png", JStr (lit "image/png"));
   (lit ".jpg", JStr (lit "image/jpeg"));
   (lit ".jpeg", JStr (lit "image/jpeg"));
   (lit ".gif", JStr (lit "image/gif"));
   (lit ".webp", JStr (lit "image/webp"));
   (lit ".mp4", JStr (lit "video/mp4"));
   (lit ".mov", JStr (lit "video/quicktime"));
   (lit ".webm", JStr (lit "video/webm"))].

(** The multipart request of [uploadFile]: the file part's content type and
    the optional [collectionId] part. *)
Record UploadRequest : Type := mkUploadRequest {
  ur_contentType : json;
  ur_collectionId : option Z
}.

(** [uploadFile] up to its request: the error thrown before anything is
    sent, or the request to send. *)
Definition uploadFileRequest (file : FileInfo) (collectionId : option Z)
    : Thrown + UploadRequest :=
  if negb (fi_exists file) then inl FileNotFound
  else if maxSize <? fi_size file then inl (FileTooLarge (fi_size file))
  else
    match obj_get mimeTypes (fi_ext file) with
    | Some contentType =>
        if truthy contentType then inr (mkUploadRequest contentType collectionId)
        else inl (UnsupportedFileType (fi_ext file))
    | None => inl (UnsupportedFileType (fi_ext file))
    end.

(** [const newHighlight: Partial<Highlight> = { text, color, note }] *)
Record NewHighlight : Type := mkNewHighlight {
  nh_text : jsstring;
  nh_color : jsstring;
  nh_note : jsstring
}.

Inductive highlightCall : Type :=
  | HighlightGetRaindrop (id : Z)
      (* GET /raindrop/id *)
  | HighlightPutRaindrop (id : Z) (highlights : list (Highlight + NewHighlight)).
      (* PUT /raindrop/id { highlights } *)

(** [value || fallback] for an optional string. *)
Definition orDefault (value : option jsstring) (fallback : jsstring) : jsstring :=
  match value with
  | Some (c :: s) => c :: s
  | _ => fallback
  end.

(** [createHighlight] over the answers of its two requests. *)
Definition createHighlight
    (getRaindropAnswer : Error + RaindropResponse)
    (updateAnswer : list (Highlight + NewHighlight) -> Error + RaindropResponse)
    (raindropId : Z) (text : jsstring) (color note : option jsstring)
    : (Error + RaindropResponse) * list highlightCall :=
  match getRaindropAnswer with
  | inl error => (inl error, [HighlightGetRaindrop raindropId])
  | inr raindrop =>
      let existingHighlights := existingHighlightsOf raindrop in
      let newHighlight :=
        mkNewHighlight text (orDefault color (lit "yellow")) (orDefault note []) in
      let updatedHighlights := map inl existingHighlights ++ [inr newHighlight] in
      (updateAnswer updatedHighlights,
       [HighlightGetRaindrop raindropId;
        HighlightPutRaindrop raindropId updatedHighlights])
  end.

(** The request of [mergeTags]: PUT /tags or /tags/collectionId with the
    body [{ tags, replace: newTag }]. *)
Record MergeRequest : Type := mkMergeRequest {
  mr_collectionId : option Z;
  mr_tags : list jsstring;
  mr_replace : jsstring
}.

(** The texts the merge-tags tool answers with. *)
Inductive MergeMessage : Type :=
  | MergeOk                                       (* "ok" *)
  | TagRenamed                                    (* "Tag renamed successfully" *)
  | TagsMerged (count : nat) (newTag : jsstring). (* `${n} tags merged into '${newTag}' successfully` *)

(** The merge-tags handler over the answer of its one request; [tags] is
    [None] when the argument is absent. *)
Definition mergeTagsTool (mergeAnswer : MergeRequest -> Error + bool)
    (tags : option (list jsstring)) (newTag : jsstring) (collectionId : option Z)
    (minimal : bool) : (Thrown + MergeMessage) * list MergeRequest :=
  match tags with
  | None | Some [] => (inl TagsRequired, [])
  | Some (tag :: others) =>
      match newTag, trim newTag with
      | [], _ | _, [] => (inl NewTagRequired, [])
      | _, _ =>
          let request := mkMergeRequest collectionId (tag :: others) newTag in
          match mergeAnswer request with
          | inl error => (inl (FromRequest error), [request])
          | inr _ =>
              (inr (if minimal then MergeOk
                    else match others with
                         | [] => TagRenamed
                         | _ => TagsMerged (length (tag :: others)) newTag
                         end),
               [request])
          end
      end
  end.

(* ====================================================================== *)
(** ** Title cleaning: properties *)
(* ====================================================================== *)

Section Trimming.

Implicit Types (s t : jsstring) (c : N).

Lemma trimStart_no_leading s : leadingSpace (trimStart s) = false.
Proof.
  induction s as [|c s IH]; simpl; [done|].
  destruct (is_whitespace c) eqn:Hc; [exact IH|].
  simpl. exact Hc.
Qed.

Lemma trimStart_fixed s : leadingSpace s = false -> trimStart s = s.
Proof.
  destruct s as [|c s]; simpl; [done|].
  intros ->. done.
Qed.

Lemma trimStart_keeps_last s c :
  is_whitespace c = false -> exists t, trimStart (s ++ [c]) = t ++ [c].
Proof.
  intros Hc. induction s as [|x s [t IH]]; simpl.
  - rewrite Hc. by exists [].
  - destruct (is_whitespace x).
    + by exists t.
    + by exists (x :: s).
Qed.

Lemma trimEnd_no_leading s : leadingSpace s = false -> leadingSpace (trimEnd s) = false.
Proof.
  destruct s as [|c s]; [done|].
  simpl. intros Hc. unfold trimEnd. simpl.
  destruct (trimStart_keeps_last (rev s) c Hc) as [t ->].
  rewrite rev_app_distr. simpl. exact Hc.
Qed.

Lemma trim_no_leading s : leadingSpace (trim s) = false.
Proof. apply trimEnd_no_leading, trimStart_no_leading. Qed.

Lemma trim_no_trailing s : leadingSpace (rev (trim s)) = false.
Proof.
  unfold trim, trimEnd. rewrite rev_involutive. apply trimStart_no_leading.
Qed.

Lemma trim_fixed s :
  leadingSpace s = false -> leadingSpace (rev s) = false -> trim s = s.
Proof.
  intros H1 H2. unfold trim, trimEnd.
  rewrite (trimStart_fixed s H1), (trimStart_fixed (rev s) H2).
  apply rev_involutive.
Qed.

(** A settled title is a fixed point of [cleanTitle]. *)
Lemma cleanTitle_settled s : settled s = true -> cleanTitle s = s.
Proof.
  unfold settled. rewrite !andb_true_iff, !negb_true_iff.
  intros [[H1 H2] H3]. unfold cleanTitle.
  rewrite (trim_fixed s H1 H2), H3. done.
Qed.

(** Without enclosing quotes, cleaning is trimming, and trimming twice is
    trimming once. *)
Lemma trim_idempotent s : trim (trim s) = trim s.
Proof. apply trim_fixed; [apply trim_no_leading | apply trim_no_trailing]. Qed.

End Trimming.

Example cleanTitle_quoted_hello :
  cleanTitle (DQUOTE :: lit "Hello World" ++ [DQUOTE]) = lit "Hello World".
Proof. reflexivity. Qed.

Example cleanTitle_plain_hello : cleanTitle (lit "Hello World") = lit "Hello World".
Proof. reflexivity. Qed.

Example cleanTitle_padded : cleanTitle (lit "  'a b'  ") = lit "a b".
Proof. reflexivity. Qed.

Example cleanTitle_lone_quote : cleanTitle [DQUOTE] = [].
Proof. reflexivity. Qed.

(** One pass over an entry, then a second, when the first already settled it. *)
Lemma cleanEntry_twice key value :
  (forall s, value = JStr s -> key = key_title -> settled (cleanTitle s) = true) ->
  (cleanTitlesInData (cleanTitlesInData value) = cleanTitlesInData value) ->
  cleanEntry cleanTitlesInData key (cleanEntry cleanTitlesInData key value)
  = cleanEntry cleanTitlesInData key value.
Proof.
  intros Hs IH. destruct value as [| b | n | s | items | entries | home name]; simpl; try done.
  - destruct (decide (key = key_title)) as [Hk|Hk]; simpl.
    + rewrite decide_True by done.
      by rewrite (cleanTitle_settled _ (Hs s eq_refl Hk)).
    + by rewrite decide_False.
Qed.

(** Conversely, only settled titles are fixed points of [cleanTitle]. *)
Lemma trimStart_length (s : jsstring) : (length (trimStart s) <= length s)%nat.
Proof.
  induction s as [|c s IH]; simpl; [done|].
  destruct (is_whitespace c); simpl; lia.
Qed.

Lemma trim_length (s : jsstring) : (length (trim s) <= length s)%nat.
Proof.
  unfold trim, trimEnd. rewrite length_rev.
  etransitivity; [apply trimStart_length|]. rewrite length_rev.
  apply trimStart_length.
Qed.

Lemma slice_1_m1_length (s : jsstring) :
  s <> [] -> (length (slice_1_m1 s) < length s)%nat.
Proof.
  destruct s as [|c s]; [done|]. intros _. unfold slice_1_m1. simpl.
  assert (Hlast : forall l : jsstring, (length (removelast l) <= length l)%nat).
  { induction l as [|x [|y l] IH]; simpl in *; lia. }
  specialize (Hlast s). lia.
Qed.

Lemma cleanTitle_fixed_settled (s : jsstring) : cleanTitle s = s -> settled s = true.
Proof.
  unfold cleanTitle. destruct (quoted (trim s)) eqn:Hq; intros Hfix.
  - exfalso. assert (Hne : trim s <> []) by (by destruct (trim s)).
    pose proof (slice_1_m1_length (trim s) Hne) as Hlt.
    pose proof (trim_length s) as Hle. rewrite Hfix in Hlt. lia.
  - unfold settled. rewrite <- Hfix at 1 2. rewrite <- Hfix in Hq.
    rewrite Hfix in Hq at 1. rewrite <- Hfix at 3.
    rewrite trim_no_leading, trim_no_trailing.
    rewrite Hfix. rewrite Hfix in Hq. by rewrite Hq.
Qed.

(** C1 (as amended). Normalising twice equals normalising once for every JSON
    value in which each string stored under a key named [title] is settled
    after one cleaning: trimmed and stripped of one layer of quotes, it has
    no whitespace at either end and does not both start and end with the
    same quote character (a string that is one quote character does). *)
Theorem cleanTitlesInData_idempotent_on_settled (x : json) :
  titlesSettle x = true ->
  cleanTitlesInData (cleanTitlesInData x) = cleanTitlesInData x.
Proof.
  induction x as [| b | n | s | items IH | entries IH | home name] using json_ind;
    intros Hx; try done.
  - simpl in *. f_equal. rewrite map_map.
    induction IH as [|y l Hy _ IHl]; [done|].
    simpl in *. apply andb_true_iff in Hx as [Hy' Hl].
    rewrite (Hy Hy'), (IHl Hl). done.
  - cbn [cleanTitlesInData titlesSettle] in *. f_equal.
    induction IH as [|[key value] l Hkv _ IHl]; [done|].
    cbn [forallb] in Hx. apply andb_true_iff in Hx as [Hkv' Hl].
    cbn [omap list_omap cleanProperty]. specialize (IHl Hl).
    destruct (decide (key = key_proto)) as [Hp|Hp]; [exact IHl|].
    cbn [omap list_omap cleanProperty]. rewrite decide_False by done.
    f_equal; [|exact IHl]. f_equal.
    apply cleanEntry_twice.
    + intros s -> Hk. by rewrite decide_True in Hkv'.
    + apply Hkv. destruct value; try done.
Qed.

Lemma cleanTitlesInData_idempotent_on_settled_witness :
  let x := JObj [(lit "_id", JNum 1);
                 (lit "title", JStr (lit "  'Hello World' "));
                 (lit "tags", JArr [JStr (lit " 'kept' ")])] in
  titlesSettle x = true
  /\ cleanTitlesInData (cleanTitlesInData x) = cleanTitlesInData x.
Proof.
  split; [reflexivity|].
  apply (cleanTitlesInData_idempotent_on_settled
           (JObj [(lit "_id", JNum 1);
                  (lit "title", JStr (lit "  'Hello World' "));
                  (lit "tags", JArr [JStr (lit " 'kept' ")])])).
  reflexivity.
Defined.

(** C1 as stated fails: a title wrapped in two layers of quotes loses one
    layer per pass, so the second pass changes the result of the first. *)
Lemma cleanTitlesInData_not_idempotent :
  let x := JObj [(lit "title", JStr [DQUOTE; DQUOTE; 97%N; DQUOTE; DQUOTE])] in
  cleanTitlesInData x = JObj [(lit "title", JStr [DQUOTE; 97%N; DQUOTE])]
  /\ cleanTitlesInData (cleanTitlesInData x) = JObj [(lit "title", JStr [97%N])]
  /\ cleanTitlesInData (cleanTitlesInData x) <> cleanTitlesInData x.
Proof.
  split; [reflexivity|]. split; [reflexivity|].
  vm_compute. discriminate.
Qed.

(** The same happens with whitespace inside the quotes. *)
Example cleanTitle_inner_space :
  cleanTitle (lit "' a '") = lit " a " /\ cleanTitle (lit " a ") = lit "a".
Proof. split; reflexivity. Qed.

(* ====================================================================== *)
(** ** The normaliser preserves structure *)
(* ====================================================================== *)

Lemma sameButTitles_entry key value :
  sameButTitles value (cleanTitlesInData value) ->
  sameButTitles value (cleanEntry cleanTitlesInData key value)
  \/ (key = key_title
      /\ exists s t, value = JStr s /\ cleanEntry cleanTitlesInData key value = JStr t).
Proof.
  intros IH. destruct value as [| b | n | s | items | entries | home name]; simpl;
    try (left; constructor; fail).
  - destruct (decide (key = key_title)) as [Hk|Hk].
    + right. split; [exact Hk|]. by exists s, (cleanTitle s).
    + left. constructor.
  - left. exact IH.
  - left. exact IH.
Qed.

(** What the relation says about arrays and objects. *)
Lemma sameButTitles_array xs y :
  sameButTitles (JArr xs) y ->
  exists ys, y = JArr ys /\ length ys = length xs.
Proof.
  intros Hrel. inversion Hrel as [| | | | xs' ys Hall | |]; subst.
  exists ys. split; [done|]. symmetry. by eapply Forall2_length.
Qed.

Lemma sameButTitles_object es y :
  sameButTitles (JObj es) y ->
  exists fs, y = JObj fs /\ obj_keys fs = obj_keys es.
Proof.
  intros Hrel. inversion Hrel as [| | | | | es' fs Hall |]; subst.
  exists fs. split; [done|]. clear Hrel.
  unfold obj_keys. induction Hall as [|e f es fs [Hk _] _ IH]; [done|].
  simpl. f_equal; [by symmetry | exact IH].
Qed.

Lemma sameButTitles_differ_only_in_titles_at_top es fs key v w :
  sameButTitles (JObj es) (JObj fs) ->
  (key, v) ∈ es -> (key, w) ∈ fs -> NoDup (obj_keys es) ->
  key <> key_title -> sameButTitles v w.
Proof.
  intros Hrel. inversion Hrel as [| | | | | es' fs' Hall |]; subst. clear Hrel.
  unfold obj_keys.
  induction Hall as [|[k a] [k' b] es fs [Hk Hrel] Hall IH]; intros Hv Hw Hnd Hkey.
  - by apply elem_of_nil in Hv.
  - simpl in *. subst k'. apply NoDup_cons in Hnd as [Hnotin Hnd].
    assert (Hkeys : map fst fs = map fst es).
    { clear -Hall. induction Hall as [|e f es fs [Hk _] _ IH]; [done|].
      simpl. f_equal; [by symmetry | exact IH]. }
    apply elem_of_cons in Hv as [Hv|Hv]; apply elem_of_cons in Hw as [Hw|Hw].
    + inversion Hv; inversion Hw; subst.
      destruct Hrel as [Hrel|[Hk _]]; [exact Hrel | done].
    + inversion Hv; subst. exfalso. apply Hnotin.
      rewrite <- Hkeys. apply list_elem_of_fmap. by exists (k, w).
    + inversion Hw; subst. exfalso. apply Hnotin.
      apply list_elem_of_fmap. by exists (k, v).
    + by apply IH.
Qed.

(** Where no object has a key named [__proto__], the normaliser preserves
    structure: its output has the shape of its input (arrays keep length and
    element order, objects keep their keys, primitives pass through
    unchanged) and differs from it at most in string values stored under a
    key named [title], at any depth. *)
Lemma cleanTitlesInData_preserves_plain_structure (x : json) :
  noProtoKey x = true -> sameButTitles x (cleanTitlesInData x).
Proof.
  induction x as [| b | n | s | items IH | entries IH | home name] using json_ind;
    intros Hx; try constructor.
  - cbn [cleanTitlesInData noProtoKey] in *.
    induction IH as [|y l Hy _ IHl]; simpl; constructor.
    + apply Hy. simpl in Hx. by apply andb_true_iff in Hx as [? _].
    + apply IHl. simpl in Hx. by apply andb_true_iff in Hx as [_ ?].
  - cbn [cleanTitlesInData noProtoKey] in *.
    induction IH as [|[key value] l Hkv _ IHl]; [constructor|].
    cbn [forallb] in Hx. apply andb_true_iff in Hx as [Hkv' Hl].
    apply andb_true_iff in Hkv' as [Hk%bool_decide_eq_true Hv].
    cbn [omap list_omap cleanProperty]. rewrite decide_False by done.
    constructor; [|by apply IHl].
    split; [done|]. simpl. apply sameButTitles_entry. by apply Hkv.
Qed.

(** C10. The claim fails for an object with a key named [__proto__]: the
    assignment [cleaned["__proto__"] = 5] runs the inherited setter, which
    ignores a number, and the output has lost the key. *)
Example cleanTitlesInData_drops_proto_key :
  let x := JObj [(lit "__proto__", JNum 5); (lit "a", JNum 2)] in
  cleanTitlesInData x = JObj [(lit "a", JNum 2)]
  /\ ~ sameButTitles x (cleanTitlesInData x).
Proof.
  split; [reflexivity|].
  intros Hrel. apply sameButTitles_object in Hrel as (fs & Hfs & Hkeys).
  injection Hfs as <-. discriminate Hkeys.
Qed.

(* ====================================================================== *)
(** ** Field projection: properties *)
(* ====================================================================== *)

Lemma obj_get_set_same (o : obj) key v : obj_get (obj_set o key v) key = Some v.
Proof.
  induction o as [|[k w] o IH]; simpl.
  - by rewrite decide_True.
  - destruct (decide (k = key)) as [Hk|Hk]; simpl.
    + by rewrite decide_True.
    + by rewrite decide_False.
Qed.

Lemma obj_get_set_other (o : obj) key key' v :
  key <> key' -> obj_get (obj_set o key v) key' = obj_get o key'.
Proof.
  intros Hne. induction o as [|[k w] o IH]; simpl.
  - by rewrite decide_False.
  - destruct (decide (k = key)) as [Hk|Hk]; simpl.
    + subst k. by rewrite !decide_False.
    + destruct (decide (k = key')); done.
Qed.

Lemma obj_get_keys (o : obj) key : key ∈ obj_keys o <-> is_Some (obj_get o key).
Proof.
  unfold obj_keys. induction o as [|[k w] o IH]; simpl.
  - split; [by intros ?%elem_of_nil | by intros [? ?]].
  - rewrite elem_of_cons. destruct (decide (k = key)) as [Hk|Hk].
    + split; [by eexists | by left].
    + rewrite IH. split; [by intros [?|?] | by right].
Qed.

(** The loop of [filterObjectFields] from any partial result, for a name
    other than [__proto__]. *)
Lemma projectField_get (c : chain) (o : obj) fieldList (state : bool * obj) key :
  key <> key_proto ->
  obj_get (fold_left (projectField c o) fieldList state).2 key
  = if decide (key ∈ fieldList)
    then match readMember c o key with
         | Some v => Some v
         | None => obj_get state.2 key
         end
    else obj_get state.2 key.
Proof.
  intros Hp. revert state. induction fieldList as [|field rest IH]; intros [setter filtered].
  - rewrite decide_False; [done | apply not_elem_of_nil].
  - cbn [fold_left]. rewrite IH. clear IH.
    destruct (decide (field = key)) as [->|Hne].
    + rewrite (decide_True (P := key ∈ key :: rest)) by apply list_elem_of_here.
      unfold projectField. rewrite (decide_False (P := key = key_proto)) by done.
      destruct (readMember c o key) as [v|] eqn:Hv; cbn [snd].
      * rewrite obj_get_set_same. by destruct (decide (key ∈ rest)).
      * by destruct (decide (key ∈ rest)).
    + assert (Hstep : obj_get (projectField c o (setter, filtered) field).2 key
                      = obj_get filtered key).
      { unfold projectField. destruct (decide (field = key_proto)) as [->|Hf].
        - destruct (obj_get o key_proto); [|done].
          destruct setter; [done|]. cbn [snd]. by apply obj_get_set_other.
        - destruct (readMember c o field); [|done].
          cbn [snd]. by apply obj_get_set_other. }
      rewrite Hstep. cbn [snd].
      destruct (decide (key ∈ rest)) as [Hin|Hin].
      * rewrite decide_True; [done | by apply elem_of_cons; right].
      * rewrite decide_False; [done|].
        intros [Heq|Hin']%elem_of_cons; [by subst | done].
Qed.

Lemma projectFields_get (c : chain) (o : obj) fieldList key :
  key <> key_proto ->
  obj_get (projectFields c o fieldList) key
  = if decide (key ∈ fieldList) then readMember c o key else None.
Proof.
  intros Hp. unfold projectFields. destruct fieldList as [|field rest].
  - by rewrite decide_False by apply not_elem_of_nil.
  - rewrite projectField_get by done. cbn [snd obj_get].
    destruct (decide (key ∈ field :: rest)); [|done].
    by destruct (readMember c o key).
Qed.

(** What the projection of a plain object holds under a name other than
    [__proto__]: for a listed name, the record's own value or, failing that,
    the method of that name inherited from [Object.prototype]. *)
Lemma filterObjectFields_get (o : obj) fieldList key :
  key <> key_proto ->
  obj_get (filterObjectFields o fieldList) key
  = if decide (key ∈ fieldList) then readMember objectChain o key else None.
Proof. apply projectFields_get. Qed.

Lemma inherited_objectChain (key : jsstring) :
  inherited objectChain key
  = if decide (key ∈ objectPrototypeMethods)
    then Some (JFun (lit "Object.prototype") key) else None.
Proof. unfold objectChain. simpl. by destruct (decide (key ∈ objectPrototypeMethods)). Qed.

(** For names that [Object.prototype] does not have, the projection has a
    key exactly when the record and the field list both have it, as whole
    names, and gives it the record's value. *)
Lemma filterObjectFields_exact_on_data_names
    (o : obj) (fieldList : list jsstring) (key : jsstring) :
  key <> key_proto -> key ∉ objectPrototypeMethods ->
  (key ∈ obj_keys (filterObjectFields o fieldList)
     <-> key ∈ obj_keys o /\ key ∈ fieldList)
  /\ obj_get (filterObjectFields o fieldList) key
     = (if decide (key ∈ fieldList) then obj_get o key else None).
Proof.
  intros Hp Hm.
  assert (Hget : obj_get (filterObjectFields o fieldList) key
                 = if decide (key ∈ fieldList) then obj_get o key else None).
  { rewrite filterObjectFields_get by done. unfold readMember.
    rewrite inherited_objectChain, (decide_False (P := key ∈ objectPrototypeMethods)) by done.
    destruct (decide (key ∈ fieldList)) as [Hin|Hin]; [|done].
    by destruct (obj_get o key). }
  split; [|exact Hget].
  rewrite !obj_get_keys, Hget.
  destruct (decide (key ∈ fieldList)) as [Hin|Hin].
  - split; [by intros ? | by intros [? _]].
  - split; [by intros [? ?] | by intros [_ ?]].
Qed.

(** C7. The claim fails for a field name that every object inherits: the
    record [{_id: 1}] has no key [constructor], yet [in] finds the inherited
    member and the projection gets an own key [constructor] holding the
    built-in function.  It also fails the other way for [__proto__]: listed
    and a key of the record parsed from [{"__proto__": 5, "a": 2}], it is
    not a key of the projection. *)
Example filterObjectFields_inherited_name_leaks :
  let o := [(lit "_id", JNum 1)] in
  filterObjectFields o [lit "constructor"]
  = [(lit "constructor", JFun (lit "Object.prototype") (lit "constructor"))]
  /\ lit "constructor" ∈ obj_keys (filterObjectFields o [lit "constructor"])
  /\ (lit "constructor" ∉ obj_keys o)
  /\ (filterObjectFields [(lit "__proto__", JNum 5); (lit "a", JNum 2)]
        [lit "__proto__"; lit "a"]
      = [(lit "a", JNum 2)]).
Proof.
  assert (Hout : filterObjectFields [(lit "_id", JNum 1)] [lit "constructor"]
                 = [(lit "constructor", JFun (lit "Object.prototype") (lit "constructor"))])
    by reflexivity.
  cbv zeta. rewrite Hout.
  split; [reflexivity|]. split; [apply list_elem_of_here|]. split; [|reflexivity].
  intros Hin%list_elem_of_singleton. discriminate Hin.
Qed.

Example filterObjectFields_id_title :
  filterObjectFields
    [(lit "_id", JNum 1); (lit "title", JStr (lit "x")); (lit "extra", JStr (lit "y"))]
    [lit "_id"; lit "title"]
  = [(lit "_id", JNum 1); (lit "title", JStr (lit "x"))].
Proof. reflexivity. Qed.

Example filterObjectFields_no_prefix_match :
  filterObjectFields [(lit "title", JStr (lit "x"))] [lit "tit"; lit "titles"; lit "*"] = [].
Proof. reflexivity. Qed.

(** [__proto__] listed twice over a record parsed from
    [{"__proto__": null, "a": 2}]: the first assignment sets the prototype
    of the result to [null], the second finds no setter and adds a
    property. *)
Example filterObjectFields_proto_listed_twice :
  filterObjectFields [(lit "__proto__", JNull); (lit "a", JNum 2)]
    [lit "__proto__"; lit "a"]
  = [(lit "a", JNum 2)]
  /\ filterObjectFields [(lit "__proto__", JNull); (lit "a", JNum 2)]
       [lit "__proto__"; lit "a"; lit "__proto__"]
     = [(lit "a", JNum 2); (lit "__proto__", JNull)].
Proof. split; reflexivity. Qed.

Example filterRecord_array_members :
  filterRecord (JArr [JStr (lit "x")]) [lit "0"; lit "length"; lit "map"; lit "title"]
  = inr [(lit "0", JStr (lit "x")); (lit "length", JNum 1);
         (lit "map", JFun (lit "Array.prototype") (lit "map"))].
Proof. reflexivity. Qed.

Lemma rest_without_payload_get (data : obj) key :
  key <> key_item -> key <> key_items ->
  obj_get (rest_without_payload data) key = obj_get data key.
Proof.
  intros H1 H2. unfold rest_without_payload.
  induction data as [|[k v] data IH]; [done|].
  rewrite filter_cons. simpl. destruct (decide (k ≠ key_item ∧ k ≠ key_items)) as [Hk|Hk]; simpl.
  - by rewrite IH.
  - rewrite IH. rewrite decide_False; [done|].
    intros ->. apply Hk. done.
Qed.

Lemma rest_without_payload_keys (data : obj) :
  obj_keys (rest_without_payload data)
  = filter (fun k => k <> key_item /\ k <> key_items) (obj_keys data).
Proof.
  unfold rest_without_payload, obj_keys.
  induction data as [|[k v] data IH]; [done|].
  rewrite filter_cons. simpl. rewrite filter_cons. simpl.
  destruct (decide (k ≠ key_item ∧ k ≠ key_items)); simpl; by rewrite IH.
Qed.

(** C6. For every envelope and every selector that resolves to the empty
    field list, projection returns the envelope without its [item] and
    [items] keys: the other top-level keys stay, in order, with their
    values. *)
Theorem filterApiResponse_metadata_only (data : obj) (fields : FieldFilter) :
  resolveFieldList fields = [] ->
  exists out,
    filterApiResponse data (Some fields) = inr out
    /\ obj_keys out = filter (fun k => k <> key_item /\ k <> key_items) (obj_keys data)
    /\ obj_get out key_item = None
    /\ obj_get out key_items = None
    /\ forall key, key <> key_item -> key <> key_items ->
                   obj_get out key = obj_get data key.
Proof.
  intros Hempty. exists (rest_without_payload data).
  unfold filterApiResponse. rewrite Hempty.
  split; [done|]. split; [apply rest_without_payload_keys|].
  assert (Hgone : forall k, k = key_item \/ k = key_items ->
                            obj_get (rest_without_payload data) k = None).
  { intros k Hk. destruct (obj_get (rest_without_payload data) k) eqn:Hget; [|done].
    exfalso. assert (Hin : k ∈ obj_keys (rest_without_payload data)).
    { apply obj_get_keys. by eexists. }
    rewrite rest_without_payload_keys in Hin.
    apply list_elem_of_filter in Hin as [[H1 H2] _]. by destruct Hk. }
  split; [apply Hgone; by left|]. split; [apply Hgone; by right|].
  intros key H1 H2. by apply rest_without_payload_get.
Qed.

Lemma filterApiResponse_metadata_only_witness :
  let data := [(lit "result", JBool true);
               (lit "items", JArr [JObj [(lit "_id", JNum 1)]; JObj [(lit "_id", JNum 2)];
                                   JObj [(lit "_id", JNum 3)]]);
               (lit "count", JNum 3)] in
  resolveFieldList (FieldNames []) = []
  /\ exists out,
      filterApiResponse data (Some (FieldNames [])) = inr out
      /\ obj_keys out = filter (fun k => k <> key_item /\ k <> key_items) (obj_keys data)
      /\ obj_get out key_item = None
      /\ obj_get out key_items = None
      /\ forall key, key <> key_item -> key <> key_items ->
                     obj_get out key = obj_get data key.
Proof.
  split; [reflexivity|].
  apply (filterApiResponse_metadata_only
           [(lit "result", JBool true);
            (lit "items", JArr [JObj [(lit "_id", JNum 1)]; JObj [(lit "_id", JNum 2)];
                                JObj [(lit "_id", JNum 3)]]);
            (lit "count", JNum 3)]
           (FieldNames [])).
  reflexivity.
Defined.

Example filterApiResponse_result_count :
  filterApiResponse
    [(lit "result", JBool true);
     (lit "items", JArr [JObj [(lit "_id", JNum 1)]; JObj [(lit "_id", JNum 2)];
                         JObj [(lit "_id", JNum 3)]]);
     (lit "count", JNum 3)]
    (Some (FieldNames []))
  = inr [(lit "result", JBool true); (lit "count", JNum 3)].
Proof. reflexivity. Qed.

Example filterApiResponse_minimal_preset :
  filterApiResponse
    [(lit "result", JBool true);
     (lit "items", JArr [JObj [(lit "_id", JNum 1); (lit "note", JStr (lit "n"));
                               (lit "title", JStr (lit "x"))]]);
     (lit "count", JNum 1)]
    (Some (Preset minimal))
  = inr [(lit "result", JBool true);
         (lit "items", JArr [JObj [(lit "_id", JNum 1); (lit "title", JStr (lit "x"))]]);
         (lit "count", JNum 1)].
Proof. reflexivity. Qed.

(* ====================================================================== *)
(** ** Highlights: properties *)
(* ====================================================================== *)

Lemma findIndex_None (hs : list Highlight) highlightId :
  findIndex hs highlightId = None <-> forall h, h ∈ hs -> hl_id h <> highlightId.
Proof.
  induction hs as [|h hs IH]; simpl.
  - split; [intros _ h' Hin; by apply elem_of_nil in Hin | done].
  - destruct (decide (hl_id h = highlightId)) as [Hid|Hid].
    + split; [done|]. intros Hall. exfalso. apply (Hall h); [apply list_elem_of_here | done].
    + assert (Hmap : forall o : option nat, option_map S o = None <-> o = None).
      { intros [?|]; done. }
      rewrite Hmap, IH. split.
      * intros Hall h' [->|Hin]%elem_of_cons; [done | by apply Hall].
      * intros Hall h' Hin. apply Hall. apply elem_of_cons. by right.
Qed.

Lemma findIndex_Some (hs : list Highlight) highlightId i :
  findIndex hs highlightId = Some i ->
  exists target,
    hs !! i = Some target /\ hl_id target = highlightId
    /\ forall j h, (j < i)%nat -> hs !! j = Some h -> hl_id h <> highlightId.
Proof.
  revert i. induction hs as [|h hs IH]; intros i; simpl; [done|].
  destruct (decide (hl_id h = highlightId)) as [Hid|Hid].
  - intros [= <-]. exists h. split; [done|]. split; [done|]. lia.
  - destruct (findIndex hs highlightId) as [i'|]; simpl; [|done].
    intros [= <-]. destruct (IH i' eq_refl) as (target & Hget & Htid & Hbefore).
    exists target. split; [done|]. split; [done|].
    intros [|j] h' Hlt Hj; simpl in Hj.
    + by inversion Hj; subst.
    + apply (Hbefore j); [lia | done].
Qed.

Section ClientProperties.

Context (remote : Remote).

(** C3. When the fetched highlight array has an element with the requested
    id, highlight delete issues the fetch and then exactly one update; the
    array it writes has the length of the fetched one, holds the first
    element with that id with its text emptied and nothing else changed, and
    every other position as fetched. *)
Theorem deleteHighlight_empties_text_in_place
    (w : world) (raindropId : Z) (highlightId : jsstring) (raindrop : RaindropResponse) :
  on_getRaindrop remote (issued w) raindropId = inr raindrop ->
  (exists h, h ∈ existingHighlightsOf raindrop /\ hl_id h = highlightId) ->
  exists (i : nat) (target : Highlight) (updated : list Highlight),
    existingHighlightsOf raindrop !! i = Some target
    /\ hl_id target = highlightId
    /\ (forall j h, (j < i)%nat -> existingHighlightsOf raindrop !! j = Some h ->
                    hl_id h <> highlightId)
    /\ deleteHighlight remote raindropId highlightId w
       = (on_updateRaindrop remote (issued w ++ [GetRaindrop raindropId]) raindropId
            (mkRaindropUpdate updated),
          mkWorld (issued w ++ [GetRaindrop raindropId;
                                UpdateRaindrop raindropId (mkRaindropUpdate updated)])
                  (watchTimestamps w))
    /\ updateCalls (issued (deleteHighlight remote raindropId highlightId w).2)
       = updateCalls (issued w) ++ [(raindropId, mkRaindropUpdate updated)]
    /\ length updated = length (existingHighlightsOf raindrop)
    /\ updated !! i
       = Some (mkHighlight (hl_id target) [] (hl_note target) (hl_color target)
                 (hl_other target))
    /\ forall j, j <> i -> updated !! j = existingHighlightsOf raindrop !! j.
Proof.
  intros Hget (h & Hin & Hid).
  destruct (findIndex (existingHighlightsOf raindrop) highlightId) as [i|] eqn:Hfind.
  2:{ exfalso. by apply (proj1 (findIndex_None _ _) Hfind h). }
  destruct (findIndex_Some _ _ _ Hfind) as (target & Hi & Htid & Hbefore).
  exists i, target, (alter tombstone i (existingHighlightsOf raindrop)).
  split; [done|]. split; [done|]. split; [done|].
  assert (Hrun : deleteHighlight remote raindropId highlightId w
            = (on_updateRaindrop remote (issued w ++ [GetRaindrop raindropId]) raindropId
                 (mkRaindropUpdate (alter tombstone i (existingHighlightsOf raindrop))),
               mkWorld (issued w ++ [GetRaindrop raindropId;
                          UpdateRaindrop raindropId
                            (mkRaindropUpdate (alter tombstone i (existingHighlightsOf raindrop)))])
                       (watchTimestamps w))).
  { unfold deleteHighlight, bind, getRaindrop, call. rewrite Hget, Hfind.
    unfold updateRaindrop, call. simpl. by rewrite <- app_assoc. }
  split; [exact Hrun|].
  split; [rewrite Hrun; cbn [snd issued]; unfold updateCalls; by rewrite omap_app|].
  split; [apply length_alter|].
  split.
  - rewrite list_lookup_alter_eq, Hi. done.
  - intros j Hj. by apply list_lookup_alter_ne.
Qed.

(** C4. When no element of the fetched highlight array has the requested id,
    highlight update fails with the highlight-not-found error after the
    fetch alone: no update is issued, and the tool reports the error. *)
Theorem updateHighlight_unknown_id_fails
    (w : world) (raindropId : Z) (highlightId : jsstring)
    (text color note : option jsstring) (minimal : bool) (raindrop : RaindropResponse) :
  on_getRaindrop remote (issued w) raindropId = inr raindrop ->
  (forall h, h ∈ existingHighlightsOf raindrop -> hl_id h <> highlightId) ->
  updateHighlight remote raindropId highlightId (mkHighlightUpdates text color note) w
  = (inl (HighlightNotFound highlightId raindropId),
     mkWorld (issued w ++ [GetRaindrop raindropId]) (watchTimestamps w))
  /\ updateCalls
       (issued (updateHighlight remote raindropId highlightId
                  (mkHighlightUpdates text color note) w).2)
     = updateCalls (issued w)
  /\ updateHighlightTool remote raindropId highlightId text color note minimal w
     = (inr (createErrorResponse (HighlightNotFound highlightId raindropId)),
        mkWorld (issued w ++ [GetRaindrop raindropId]) (watchTimestamps w)).
Proof.
  intros Hget Hnone. apply findIndex_None in Hnone.
  assert (Hrun : updateHighlight remote raindropId highlightId
                   (mkHighlightUpdates text color note) w
                 = (inl (HighlightNotFound highlightId raindropId),
                    mkWorld (issued w ++ [GetRaindrop raindropId]) (watchTimestamps w))).
  { unfold updateHighlight, bind, getRaindrop, call. by rewrite Hget, Hnone. }
  split; [exact Hrun|].
  split; [rewrite Hrun; cbn [snd issued]; unfold updateCalls; rewrite omap_app; apply app_nil_r|].
  unfold updateHighlightTool, toolHandler, bind, tryCatch. by rewrite Hrun.
Qed.

(** C8. An empty-trash invocation whose [confirm] is not true ends in the
    error response of the confirmation check and issues nothing: no delete
    call, no event at all, the process state is as before. *)
Theorem emptyTrash_needs_confirm (w : world) (confirm : option bool) :
  confirm <> Some true ->
  emptyTrashTool remote confirm w = (inr (createErrorResponse ConfirmRequired), w)
  /\ deleteCalls (issued (emptyTrashTool remote confirm w).2) = deleteCalls (issued w).
Proof.
  intros Hc.
  assert (Hrun : emptyTrashTool remote confirm w
                 = (inr (createErrorResponse ConfirmRequired), w)).
  { destruct confirm as [[|]|]; done. }
  by rewrite Hrun.
Qed.

End ClientProperties.

Lemma deleteHighlight_empties_text_in_place_witness :
  let remote := highlightService [sampleHighlight "h0" "bar"; sampleHighlight "h1" "foo"] in
  let raindrop := bookmarkWith [sampleHighlight "h0" "bar"; sampleHighlight "h1" "foo"] in
  on_getRaindrop remote (issued emptyWorld) 1 = inr raindrop
  /\ (exists h, h ∈ existingHighlightsOf raindrop /\ hl_id h = lit "h1")
  /\ exists (i : nat) (target : Highlight) (updated : list Highlight),
      existingHighlightsOf raindrop !! i = Some target
      /\ hl_id target = lit "h1"
      /\ (forall j h, (j < i)%nat -> existingHighlightsOf raindrop !! j = Some h ->
                      hl_id h <> lit "h1")
      /\ deleteHighlight remote 1 (lit "h1") emptyWorld
         = (on_updateRaindrop remote (issued emptyWorld ++ [GetRaindrop 1]) 1
              (mkRaindropUpdate updated),
            mkWorld (issued emptyWorld ++ [GetRaindrop 1;
                                          UpdateRaindrop 1 (mkRaindropUpdate updated)])
                    (watchTimestamps emptyWorld))
      /\ updateCalls (issued (deleteHighlight remote 1 (lit "h1") emptyWorld).2)
         = updateCalls (issued emptyWorld) ++ [(1, mkRaindropUpdate updated)]
      /\ length updated = length (existingHighlightsOf raindrop)
      /\ updated !! i
         = Some (mkHighlight (hl_id target) [] (hl_note target) (hl_color target)
                   (hl_other target))
      /\ forall j, j <> i -> updated !! j = existingHighlightsOf raindrop !! j.
Proof.
  split; [reflexivity|]. split.
  - exists (sampleHighlight "h1" "foo"). split; [|reflexivity].
    apply elem_of_cons. right. apply list_elem_of_here.
  - apply (deleteHighlight_empties_text_in_place
             (highlightService [sampleHighlight "h0" "bar"; sampleHighlight "h1" "foo"])
             emptyWorld 1 (lit "h1")
             (bookmarkWith [sampleHighlight "h0" "bar"; sampleHighlight "h1" "foo"])).
    + reflexivity.
    + exists (sampleHighlight "h1" "foo"). split; [|reflexivity].
      apply elem_of_cons. right. apply list_elem_of_here.
Defined.

(** The example of the specification: deleting ["h1"] from a bookmark whose
    only highlight is [{_id: "h1", text: "foo"}]. *)
Example deleteHighlight_h1 :
  issued (deleteHighlight (highlightService [sampleHighlight "h1" "foo"]) 1 (lit "h1")
            emptyWorld).2
  = [GetRaindrop 1;
     UpdateRaindrop 1 (mkRaindropUpdate [sampleHighlight "h1" ""])].
Proof. reflexivity. Qed.

Lemma updateHighlight_unknown_id_fails_witness :
  let remote := highlightService [sampleHighlight "h1" "foo"] in
  let raindrop := bookmarkWith [sampleHighlight "h1" "foo"] in
  on_getRaindrop remote (issued emptyWorld) 1 = inr raindrop
  /\ (forall h, h ∈ existingHighlightsOf raindrop -> hl_id h <> lit "h9")
  /\ updateHighlight remote 1 (lit "h9") (mkHighlightUpdates (Some (lit "new")) None None)
       emptyWorld
     = (inl (HighlightNotFound (lit "h9") 1),
        mkWorld (issued emptyWorld ++ [GetRaindrop 1]) (watchTimestamps emptyWorld))
  /\ updateCalls
       (issued (updateHighlight remote 1 (lit "h9")
                  (mkHighlightUpdates (Some (lit "new")) None None) emptyWorld).2)
     = updateCalls (issued emptyWorld)
  /\ updateHighlightTool remote 1 (lit "h9") (Some (lit "new")) None None false emptyWorld
     = (inr (createErrorResponse (HighlightNotFound (lit "h9") 1)),
        mkWorld (issued emptyWorld ++ [GetRaindrop 1]) (watchTimestamps emptyWorld)).
Proof.
  assert (Hnone : forall h, h ∈ existingHighlightsOf (bookmarkWith [sampleHighlight "h1" "foo"]) ->
                            hl_id h <> lit "h9").
  { intros h Hin. apply list_elem_of_singleton in Hin. subst h. discriminate. }
  split; [reflexivity|]. split; [exact Hnone|].
  apply (updateHighlight_unknown_id_fails
           (highlightService [sampleHighlight "h1" "foo"])
           emptyWorld 1 (lit "h9") (Some (lit "new")) None None false
           (bookmarkWith [sampleHighlight "h1" "foo"])).
  - reflexivity.
  - exact Hnone.
Defined.

Lemma emptyTrash_needs_confirm_witness :
  let remote := highlightService [] in
  Some false <> Some true
  /\ emptyTrashTool remote (Some false) emptyWorld
     = (inr (createErrorResponse ConfirmRequired), emptyWorld)
  /\ deleteCalls (issued (emptyTrashTool remote (Some false) emptyWorld).2)
     = deleteCalls (issued emptyWorld).
Proof.
  split; [discriminate|].
  apply (emptyTrash_needs_confirm (highlightService []) emptyWorld (Some false)).
  discriminate.
Defined.

(** With [confirm] true the delete call against the trash collection goes out. *)
Example emptyTrash_confirmed :
  emptyTrashTool (highlightService []) (Some true) emptyWorld
  = (inr (createSuccessResponse (Plain trashEmptied)),
     mkWorld [DeleteCollection (-99)] ∅).
Proof. reflexivity. Qed.

(* ====================================================================== *)
(** ** Watch-collection: properties *)
(* ====================================================================== *)

Section WatchProperties.

Context (remote : Remote).

(** The first call on a collection, without [since] and without reset: the
    floor is the call-time [now], the fetched items created later than it
    are reported, and the cursor is stored. *)
Lemma watchCollection_first_call
    (w : world) (now collectionId : Z) (resetWatch : option bool)
    (result : RaindropsResponse) :
  watchTimestamps w !! collectionId = None ->
  resetWatch <> Some true ->
  on_getRaindrops remote (issued w) collectionId watchParams = inr result ->
  watchCollection remote now collectionId None resetWatch w
  = (inr (mkWatchResult collectionId (Some now) (Some now)
            (filter (fun item => createdAfter (Some now) item = true) (rs_items result))
            (length (filter (fun item => createdAfter (Some now) item = true)
                       (rs_items result)))),
     mkWorld (issued w ++ [GetRaindrops collectionId watchParams])
             (<[collectionId := Some now]> (watchTimestamps w))).
Proof.
  intros Hnone Hreset Hfetch.
  assert (Hrun : forall r, r <> Some true ->
            watchCollection remote now collectionId None r w
            = bind (bind (getWatch collectionId)
                      (fun stored => ret (match stored with Some t => t | None => Some now end)))
                (fun checkSince =>
                   bind (getRaindrops remote collectionId watchParams)
                     (fun result =>
                        bind (setWatch collectionId (Some now))
                          (fun _ => ret (mkWatchResult collectionId checkSince (Some now)
                             (filter (fun item => createdAfter checkSince item = true)
                                (rs_items result))
                             (length (filter (fun item => createdAfter checkSince item = true)
                                (rs_items result))))))) w).
  { intros [[|]|] Hr; done. }
  rewrite (Hrun resetWatch Hreset).
  unfold bind, getWatch, ret, getRaindrops, call, setWatch.
  by rewrite Hnone, Hfetch.
Qed.

(** The baseline is empty when no fetched item is stamped later than [now]. *)
Lemma watchCollection_baseline_empty
    (w : world) (now collectionId : Z) (resetWatch : option bool)
    (result : RaindropsResponse) :
  watchTimestamps w !! collectionId = None ->
  resetWatch <> Some true ->
  on_getRaindrops remote (issued w) collectionId watchParams = inr result ->
  Forall (fun item => createdAfter (Some now) item = false) (rs_items result) ->
  exists r w',
    watchCollection remote now collectionId None resetWatch w = (inr r, w')
    /\ wr_newItems r = [] /\ wr_count r = 0%nat
    /\ watchTimestamps w' !! collectionId = Some (Some now).
Proof.
  intros Hnone Hreset Hfetch Hold.
  eexists _, _. split; [by apply watchCollection_first_call|]. simpl.
  assert (Hempty : filter (fun item => createdAfter (Some now) item = true)
                     (rs_items result) = []).
  { induction Hold as [|item items Hitem _ IH]; [done|].
    rewrite filter_cons_False; [exact IH | by rewrite Hitem]. }
  rewrite Hempty. split; [done|]. split; [done|]. apply lookup_insert_eq.
Qed.

(** When the fetch throws, so does the call, and no cursor is stored. *)
Lemma watchCollection_fetch_fails
    (w : world) (now collectionId : Z) (error : Error) :
  watchTimestamps w !! collectionId = None ->
  on_getRaindrops remote (issued w) collectionId watchParams = inl error ->
  watchCollection remote now collectionId None None w
  = (inl error, mkWorld (issued w ++ [GetRaindrops collectionId watchParams])
                        (watchTimestamps w)).
Proof.
  intros Hnone Hfetch.
  unfold watchCollection, bind, getWatch, ret, getRaindrops, call.
  by rewrite Hfetch.
Qed.

End WatchProperties.

(** C2, at the failing input. No cursor is stored for collection 7 and the
    call is made at time 1000 without [since] or reset; the listing holds a
    bookmark stamped 2000, later than the caller's clock. The call reports
    it: [count] is 1, not 0. *)
Example watchCollection_first_call_reports_later_item :
  watchCollection (listingService [bookmarkCreatedAt 2000]) 1000 7 None None emptyWorld
  = (inr (mkWatchResult 7 (Some 1000) (Some 1000) [bookmarkCreatedAt 2000] 1),
     mkWorld [GetRaindrops 7 watchParams] (<[7 := Some 1000]> ∅)).
Proof. reflexivity. Qed.

Example watchCollection_first_call_older_item :
  watchCollection (listingService [bookmarkCreatedAt 900]) 1000 7 None None emptyWorld
  = (inr (mkWatchResult 7 (Some 1000) (Some 1000) [] 0),
     mkWorld [GetRaindrops 7 watchParams] (<[7 := Some 1000]> ∅)).
Proof. reflexivity. Qed.

Example watchCollection_reset :
  watchCollection (listingService [bookmarkCreatedAt 2000]) 1000 7 None (Some true)
    (mkWorld [] (<[7 := Some 10]> ∅))
  = (inr (mkWatchResult 7 (Some 1000) (Some 1000) [] 0),
     mkWorld [] (<[7 := Some 1000]> (<[7 := Some 10]> ∅))).
Proof. reflexivity. Qed.

(* ====================================================================== *)
(** ** Bulk creation: properties *)
(* ====================================================================== *)

Lemma createCalls_bulkEvents (delayMs : Z) (datas : list NewRaindrop) :
  forall i, createCalls (bulkEvents delayMs i datas) = datas.
Proof.
  unfold createCalls. induction datas as [|d datas IH]; intros i; simpl; [done|].
  rewrite omap_app. simpl. rewrite IH.
  destruct i as [|i]; simpl; [done|].
  unfold pause. by destruct (0 <? delayMs).
Qed.

Section BulkProperties.

Context (remote : Remote).

(** One pass through the [try] block for item number [i]. *)
Lemma bulk_attempt (delayMs : Z) (i : nat) (d : NewRaindrop) (w : world) :
  tryCatch (bind (if (0 <? i)%nat && (0 <? delayMs) then emit (Delay delayMs) else ret tt)
         (fun _ => createRaindrop remote d)) w
  = (inr (on_createRaindrop remote (issued w ++ gap delayMs i) d),
     mkWorld (issued w ++ gap delayMs i ++ [CreateRaindrop d]) (watchTimestamps w)).
Proof.
  unfold tryCatch, bind, createRaindrop, call, gap, pause.
  destruct i as [|i]; simpl.
  - by rewrite app_nil_r.
  - destruct (0 <? delayMs); simpl.
    + by rewrite <- app_assoc.
    + by rewrite app_nil_r.
Qed.

(** The loop from item [i] on: it returns, having attempted the first [n] of
    the remaining items, [s] of them with success and [f] without. *)
Lemma bulkLoop_spec (delayMs : Z) (continueOnError : bool) (raindrops : list BulkItem) :
  forall (i : nat) (results : BulkResults) (w : world),
  exists (results' : BulkResults) (w' : world) (n s f : nat),
    bulkLoop remote delayMs continueOnError i raindrops results w = (inr results', w')
    /\ (n <= length raindrops)%nat
    /\ issued w' = issued w ++ bulkEvents delayMs i (map bulkData (take n raindrops))
    /\ watchTimestamps w' = watchTimestamps w
    /\ total results' = total results
    /\ (s + f = n)%nat
    /\ successful results' = (successful results + s)%nat
    /\ length (created results') = (length (created results) + s)%nat
    /\ failed results' = (failed results + f)%nat
    /\ length (errors results') = (length (errors results) + f)%nat
    /\ (if continueOnError then n = length raindrops
        else (f = 0%nat /\ n = length raindrops)
             \/ (f = 1%nat
                 /\ map be_index (errors results')
                    = map be_index (errors results) ++ [(i + n - 1)%nat])).
Proof.
  induction raindrops as [|raindrop rest IH]; intros i results w.
  - exists results, w, 0%nat, 0%nat, 0%nat. simpl.
    rewrite app_nil_r, !Nat.add_0_r.
    repeat split; try done. destruct continueOnError; [done | by left].
  - cbn [bulkLoop]. unfold bind at 1. rewrite bulk_attempt.
    destruct (on_createRaindrop remote (issued w ++ gap delayMs i) (bulkData raindrop))
      as [error|result].
    + destruct continueOnError.
      * destruct (IH (S i) (recordFailure results i raindrop error)
                    (mkWorld (issued w ++ gap delayMs i ++ [CreateRaindrop (bulkData raindrop)])
                       (watchTimestamps w)))
          as (results' & w' & n & s & f & Hrun & Hn & Hev & Hwt & Htot & Hsf & Hs & Hc & Hf & He & Hall).
        exists results', w', (S n), s, (S f). rewrite Hrun.
        split; [done|]. split; [simpl; lia|]. split.
        { rewrite Hev. simpl. by rewrite <- !app_assoc. }
        simpl in *. rewrite length_app in He. simpl in He.
        repeat split; try done; lia.
      * exists (recordFailure results i raindrop error),
          (mkWorld (issued w ++ gap delayMs i ++ [CreateRaindrop (bulkData raindrop)])
             (watchTimestamps w)), 1%nat, 0%nat, 1%nat.
        split; [done|]. split; [simpl; lia|]. split; [done|].
        simpl. rewrite length_app, map_app. simpl.
        repeat split; try done; try lia.
        right. split; [done|]. do 3 f_equal. lia.
    + destruct (IH (S i) (recordSuccess results (rr_item result))
                  (mkWorld (issued w ++ gap delayMs i ++ [CreateRaindrop (bulkData raindrop)])
                     (watchTimestamps w)))
        as (results' & w' & n & s & f & Hrun & Hn & Hev & Hwt & Htot & Hsf & Hs & Hc & Hf & He & Hall).
      exists results', w', (S n), (S s), f. rewrite Hrun.
      split; [done|]. split; [simpl; lia|]. split.
      { rewrite Hev. simpl. by rewrite <- !app_assoc. }
      simpl in *. rewrite length_app in Hc. simpl in Hc.
      repeat split; try done; try lia.
      destruct continueOnError; [lia|].
      destruct Hall as [[Hf0 Hlen]|[Hf1 Herr]]; [left; lia|].
      right. split; [done|]. rewrite Herr. do 2 f_equal. lia.
Qed.


End BulkProperties.

Section BulkClaims.

Context (remote : Remote).

(** With [continueOnError] false the loop attempts a prefix of the input: all
    of it when nothing fails, else up to and including the first failing
    item. *)
Lemma bulkRun_prefix (raindrops : list BulkItem) (delayMs : Z) (w : world) :
  exists (results : BulkResults) (w' : world) (n : nat),
    bulkRun remote raindrops delayMs false w = (inr results, w')
    /\ issued w' = issued w ++ bulkEvents delayMs 0 (map bulkData (take n raindrops))
    /\ n = (successful results + failed results)%nat
    /\ ((failed results = 0%nat /\ n = length raindrops)
        \/ (failed results = 1%nat /\ map be_index (errors results) = [(n - 1)%nat])).
Proof.
  destruct (bulkLoop_spec remote delayMs false raindrops 0
              (mkBulkResults (length raindrops) 0 0 [] []) w)
    as (results & w' & n & s & f & Hrun & Hn & Hev & Hwt & Htot & Hsf & Hs & Hc & Hf & He & Hall).
  exists results, w', n. simpl in *.
  split; [exact Hrun|]. split; [exact Hev|]. split; [lia|].
  destruct Hall as [[Hf0 Hlen]|[Hf1 Herr]]; [left; lia | right].
  split; [lia | exact Herr].
Qed.


(** C9. Every summary of bulk create: [successful] is the number of created
    items, [failed] the number of recorded errors, their sum is at most
    [total], which is the length of the input; without [continueOnError]
    [failed] is at most 1; and [success] is true exactly when [failed] is 0. *)
Theorem bulk_create_summary_invariants
    (raindrops : list BulkItem) (delayMs : Z) (continueOnError minimal : bool)
    (w : world) :
  exists (results : BulkResults) (report : BulkReport) (w' : world),
    bulkRun remote raindrops delayMs continueOnError w = (inr results, w')
    /\ createRaindropsBulkTool remote raindrops delayMs continueOnError minimal w
       = (inr (createJsonResponse (OfBulk report)), w')
    /\ report = bulkReport results minimal
    /\ report_successful report = length (created results)
    /\ report_failed report = length (errors results)
    /\ (report_successful report + report_failed report <= report_total report)%nat
    /\ report_total report = length raindrops
    /\ (continueOnError = true \/ (report_failed report <= 1)%nat)
    /\ (report_success report = true <-> report_failed report = 0%nat).
Proof.
  destruct (bulkLoop_spec remote delayMs continueOnError raindrops 0
              (mkBulkResults (length raindrops) 0 0 [] []) w)
    as (results & w' & n & s & f & Hrun & Hn & Hev & Hwt & Htot & Hsf & Hs & Hc & Hf & He & Hall).
  exists results, (bulkReport results minimal), w'. simpl in *.
  split; [exact Hrun|]. split.
  { unfold createRaindropsBulkTool, toolHandler, bind, tryCatch, bulkRun. by rewrite Hrun. }
  split; [done|].
  assert (Hview : report_successful (bulkReport results minimal) = successful results
                  /\ report_failed (bulkReport results minimal) = failed results
                  /\ report_total (bulkReport results minimal) = total results
                  /\ report_success (bulkReport results minimal)
                     = Nat.eqb (failed results) 0).
  { by destruct minimal. }
  destruct Hview as (-> & -> & -> & ->).
  split; [lia|]. split; [lia|]. split; [lia|]. split; [lia|].
  split.
  - destruct continueOnError; [by left | right].
    destruct Hall as [[Hf0 _]|[Hf1 _]]; lia.
  - apply Nat.eqb_eq.
Qed.

End BulkClaims.


Example bulk_five_second_fails :
  let items := [linkOnly "https://a.example"; linkOnly "https://b.example";
                linkOnly "https://c.example"; linkOnly "https://d.example";
                linkOnly "https://e.example"] in
  (createRaindropsBulkTool (createService (fun k => Nat.eqb k 1)) items 500 false true
     emptyWorld).1
  = inr (createJsonResponse (OfBulk (MinimalReport false 1 1 5)))
  /\ createCalls (issued (createRaindropsBulkTool (createService (fun k => Nat.eqb k 1))
                            items 500 false true emptyWorld).2)
     = map bulkData (take 2 items).
Proof. split; reflexivity. Qed.

Example bulk_five_second_fails_continue :
  let items := [linkOnly "https://a.example"; linkOnly "https://b.example";
                linkOnly "https://c.example"; linkOnly "https://d.example";
                linkOnly "https://e.example"] in
  (createRaindropsBulkTool (createService (fun k => Nat.eqb k 1)) items 500 true true
     emptyWorld).1
  = inr (createJsonResponse (OfBulk (MinimalReport false 4 1 5))).
Proof. reflexivity. Qed.

(* ====================================================================== *)
(** ** Title cleaning: further properties *)
(* ====================================================================== *)

(** The fixed points of [cleanTitle] are exactly the settled titles: no
    whitespace at either end, and not both starting and ending with the same
    quote character (as a title that is one quote character does). *)
Theorem cleanTitle_fixed_iff_settled (s : jsstring) :
  cleanTitle s = s <-> settled s = true.
Proof.
  split.
  - unfold cleanTitle. destruct (quoted (trim s)) eqn:Hq; intros Hfix.
    + exfalso. assert (Hne : trim s <> []) by (by destruct (trim s)).
      pose proof (slice_1_m1_length (trim s) Hne) as Hlt.
      pose proof (trim_length s) as Hle. rewrite Hfix in Hlt. lia.
    + unfold settled.
      pose proof (trim_no_leading s) as H1. pose proof (trim_no_trailing s) as H2.
      rewrite Hfix in H1, H2, Hq. by rewrite H1, H2, Hq.
  - unfold settled. rewrite !andb_true_iff, !negb_true_iff.
    intros [[H1 H2] H3]. unfold cleanTitle.
    by rewrite (trim_fixed s H1 H2), H3.
Qed.

Lemma trimStart_suffix (s : jsstring) : exists pre, s = pre ++ trimStart s.
Proof.
  induction s as [|c s [pre IH]]; simpl; [by exists []|].
  destruct (is_whitespace c).
  - exists (c :: pre). simpl. by f_equal.
  - by exists [].
Qed.

Lemma trimEnd_prefix (s : jsstring) : exists post, s = trimEnd s ++ post.
Proof.
  unfold trimEnd. destruct (trimStart_suffix (rev s)) as [pre Hpre].
  exists (rev pre). rewrite <- rev_app_distr, <- Hpre. symmetry. apply rev_involutive.
Qed.

Lemma slice_1_m1_infix (s : jsstring) : exists pre post, s = pre ++ slice_1_m1 s ++ post.
Proof.
  unfold slice_1_m1. destruct s as [|c s]; simpl; [by exists [], []|].
  destruct (decide (s = [])) as [->|Hne]; [by exists [c], []|].
  exists [c], [List.last s 0%N]. simpl. f_equal. by apply app_removelast_last.
Qed.

(** [cleanTitle] only cuts: its result is one contiguous part of the title,
    so it never adds or reorders code units, and it is never longer. *)
Theorem cleanTitle_is_part_of_title (s : jsstring) :
  (exists pre post, s = pre ++ cleanTitle s ++ post)
  /\ (length (cleanTitle s) <= length s)%nat.
Proof.
  assert (Hpart : exists pre post, s = pre ++ cleanTitle s ++ post).
  { destruct (trimStart_suffix s) as [p1 H1].
    destruct (trimEnd_prefix (trimStart s)) as [q1 H2]. fold (trim s) in H2.
    unfold cleanTitle. destruct (quoted (trim s)).
    - destruct (slice_1_m1_infix (trim s)) as (p2 & q2 & H3).
      exists (p1 ++ p2), (q2 ++ q1).
      rewrite H1 at 1. rewrite H2 at 1. rewrite H3 at 1.
      by rewrite <- !app_assoc.
    - exists p1, q1. rewrite H1 at 1. by rewrite H2 at 1. }
  split; [exact Hpart|].
  destruct Hpart as (pre & post & Heq).
  rewrite Heq at 2. rewrite !length_app. lia.
Qed.

Lemma omap_length_le {A B} (f : A -> option B) (l : list A) :
  (length (omap f l) <= length l)%nat.
Proof.
  induction l as [|x l IH]; [done|].
  cbn [omap list_omap]. destruct (f x); simpl; fold (omap f l); lia.
Qed.

(** The normaliser returns its argument unchanged exactly when every string
    stored under a key named [title] is already settled and no object has a
    key named [__proto__]; in particular a value with neither passes through
    as it is. *)
Theorem cleanTitlesInData_fixed_iff_clean (x : json) :
  cleanTitlesInData x = x <-> titlesClean x = true /\ noProtoKey x = true.
Proof.
  induction x as [| b | n | s | items IH | entries IH | home name] using json_ind; try done.
  - cbn [cleanTitlesInData titlesClean noProtoKey]. split.
    + intros Hfix. injection Hfix as Hfix.
      induction IH as [|y l Hy _ IHl]; [done|].
      simpl in *. injection Hfix as Hy' Hl.
      destruct (proj1 Hy Hy') as [-> ->]. destruct (IHl Hl) as [-> ->]. done.
    + intros [Hclean Hplain]. f_equal.
      induction IH as [|y l Hy _ IHl]; [done|].
      simpl in *. apply andb_true_iff in Hclean as [Hy' Hl].
      apply andb_true_iff in Hplain as [Hp' Hpl].
      f_equal; [by apply Hy | by apply IHl].
  - cbn [cleanTitlesInData titlesClean noProtoKey]. split.
    + intros Hfix. injection Hfix as Hfix.
      induction IH as [|[key value] l Hkv _ IHl]; [done|].
      cbn [omap list_omap cleanProperty] in Hfix.
      destruct (decide (key = key_proto)) as [Hp|Hp].
      * exfalso. apply (f_equal (@length _)) in Hfix. simpl in Hfix.
        pose proof (omap_length_le (cleanProperty cleanTitlesInData) l) as Hle. lia.
      * injection Hfix as Hentry Hl. destruct (IHl Hl) as [Hc Hn].
        cbn [forallb]. rewrite Hc, Hn, !andb_true_r.
        rewrite (bool_decide_eq_true_2 _ Hp). cbn [andb].
        destruct value as [| b | n | s | items | entries | home name]; simpl in *; try done.
        -- destruct (decide (key = key_title)); [|done].
           injection Hentry as Hentry. split; [|done]. by apply cleanTitle_fixed_settled.
        -- by apply Hkv.
        -- by apply Hkv.
    + intros [Hclean Hplain]. f_equal.
      induction IH as [|[key value] l Hkv _ IHl]; [done|].
      cbn [forallb] in Hclean, Hplain.
      apply andb_true_iff in Hclean as [Hentry Hl].
      apply andb_true_iff in Hplain as [Hk Hpl].
      apply andb_true_iff in Hk as [Hk%bool_decide_eq_true Hv].
      cbn [omap list_omap cleanProperty]. rewrite decide_False by done.
      f_equal; [|by apply IHl]. f_equal.
      destruct value as [| b | n | s | items | entries | home name]; simpl in *; try done.
      * destruct (decide (key = key_title)); [|done].
        by rewrite (cleanTitle_settled _ Hentry).
      * by apply Hkv.
      * by apply Hkv.
Qed.

Example cleanTitlesInData_proto_key_changes :
  let x := JObj [(lit "__proto__", JNum 5); (lit "a", JNum 2)] in
  titlesClean x = true /\ noProtoKey x = false /\ cleanTitlesInData x <> x.
Proof. split; [reflexivity|]. split; [reflexivity|]. vm_compute. discriminate. Qed.

Example cleanTitlesInData_title_in_array_untouched :
  let x := JObj [(lit "title", JArr [JStr (lit " 'x' ")]);
                 (lit "name", JStr (lit " 'y' "))] in
  cleanTitlesInData x = x.
Proof. reflexivity. Qed.

(* ====================================================================== *)
(** ** Field projection: further properties *)
(* ====================================================================== *)

Lemma obj_set_keys (o : obj) key v :
  obj_keys (obj_set o key v)
  = if decide (key ∈ obj_keys o) then obj_keys o else obj_keys o ++ [key].
Proof.
  unfold obj_keys. induction o as [|[k w] o IH].
  - rewrite decide_False; [done | apply not_elem_of_nil].
  - cbn [obj_set]. destruct (decide (k = key)) as [->|Hne]; cbn [map fst].
    + rewrite decide_True; [done | apply list_elem_of_here].
    + rewrite IH. destruct (decide (key ∈ map fst o)) as [Hin|Hin].
      * rewrite decide_True; [done | by apply elem_of_cons; right].
      * rewrite decide_False; [done|].
        intros [Heq|Hin']%elem_of_cons; [by subst | done].
Qed.

Lemma obj_set_NoDup (o : obj) key v :
  NoDup (obj_keys o) -> NoDup (obj_keys (obj_set o key v)).
Proof.
  intros Hnd. rewrite obj_set_keys.
  destruct (decide (key ∈ obj_keys o)) as [Hin|Hin]; [done|].
  apply NoDup_app. split; [done|]. split.
  - intros k Hk ->%list_elem_of_singleton. done.
  - apply NoDup_singleton.
Qed.

Lemma projectFields_NoDup (c : chain) (o : obj) (fieldList : list jsstring) :
  NoDup (obj_keys (projectFields c o fieldList)).
Proof.
  unfold projectFields. destruct fieldList as [|field rest]; [apply NoDup_nil_2|].
  generalize (field :: rest). intros fl.
  assert (Hloop : forall state : bool * obj,
            NoDup (obj_keys state.2) ->
            NoDup (obj_keys (fold_left (projectField c o) fl state).2)).
  { induction fl as [|f fl IH]; intros [setter filtered] Hnd; simpl; [done|].
    apply IH. simpl in Hnd. destruct (decide (f = key_proto)).
    - destruct (obj_get o key_proto); [|done].
      destruct setter; [done|]. by apply obj_set_NoDup.
    - destruct (readMember c o f); [by apply obj_set_NoDup | done]. }
  apply Hloop. apply NoDup_nil_2.
Qed.

(** The projection never has the same key twice, whatever the field list
    repeats and whatever the record holds. *)
Theorem filterObjectFields_keys_distinct (o : obj) (fieldList : list jsstring) :
  NoDup (obj_keys (filterObjectFields o fieldList)).
Proof. apply projectFields_NoDup. Qed.

Lemma projectField_ext (c : chain) (o o' : obj) (fieldList : list jsstring)
    (state : bool * obj) :
  key_proto ∉ fieldList ->
  (forall field, field ∈ fieldList -> readMember c o field = readMember c o' field) ->
  fold_left (projectField c o) fieldList state
  = fold_left (projectField c o') fieldList state.
Proof.
  revert state. induction fieldList as [|f fl IH]; intros state Hp Hsame; simpl; [done|].
  apply not_elem_of_cons in Hp as [Hf Hp].
  assert (Hstep : projectField c o state f = projectField c o' state f).
  { unfold projectField. destruct state as [setter filtered].
    rewrite !(decide_False (P := f = key_proto)) by done.
    by rewrite (Hsame f) by apply list_elem_of_here. }
  rewrite Hstep. apply IH; [done|].
  intros field Hin. apply Hsame. by apply elem_of_cons; right.
Qed.

(** Projecting a projection again by the same field list changes nothing,
    when the list does not name [__proto__].  (Under that name the first
    projection may have replaced the prototype of its result, and then the
    second reads inherited members through it.) *)
Theorem filterObjectFields_idempotent (o : obj) (fieldList : list jsstring) :
  key_proto ∉ fieldList ->
  filterObjectFields (filterObjectFields o fieldList) fieldList
  = filterObjectFields o fieldList.
Proof.
  intros Hp. destruct fieldList as [|field rest]; [done|].
  unfold filterObjectFields at 1 3. unfold projectFields. f_equal.
  apply projectField_ext; [done|]. intros f Hin.
  assert (Hf : f <> key_proto) by (by intros ->).
  unfold readMember at 1. rewrite filterObjectFields_get by done.
  rewrite decide_True by done.
  unfold readMember. destruct (obj_get o f); [done|].
  by destruct (inherited objectChain f).
Qed.

Lemma filterObjectFields_idempotent_witness :
  let o := [(lit "_id", JNum 1); (lit "title", JStr (lit "x")); (lit "note", JNull)] in
  let fieldList := [lit "title"; lit "toString"; lit "_id"; lit "absent"] in
  (key_proto ∉ fieldList)
  /\ filterObjectFields (filterObjectFields o fieldList) fieldList
     = filterObjectFields o fieldList.
Proof.
  assert (Hnot : key_proto ∉ [lit "title"; lit "toString"; lit "_id"; lit "absent"]).
  { apply (bool_decide_eq_true_1
             (key_proto ∉ [lit "title"; lit "toString"; lit "_id"; lit "absent"])).
    vm_compute. reflexivity. }
  split; [exact Hnot|].
  apply (filterObjectFields_idempotent
           [(lit "_id", JNum 1); (lit "title", JStr (lit "x")); (lit "note", JNull)]
           [lit "title"; lit "toString"; lit "_id"; lit "absent"] Hnot).
Defined.

Lemma obj_set_keys_present (o : obj) key v w :
  obj_get o key = Some w -> obj_keys (obj_set o key v) = obj_keys o.
Proof.
  intros Hget. rewrite obj_set_keys. rewrite decide_True; [done|].
  apply obj_get_keys. by eexists.
Qed.

Lemma filterRecords_objects (records : list obj) (fieldList : list jsstring) :
  fieldList <> [] ->
  filterRecords (map JObj records) fieldList
  = inr (map (fun r => JObj (filterObjectFields r fieldList)) records).
Proof.
  intros Hne. induction records as [|r records IH]; simpl; [done|].
  rewrite IH. destruct fieldList; done.
Qed.

(** An envelope whose [items] is an array of records, under a non-empty
    field list: the result has the keys of the envelope in the same order,
    every record of [items] projected in place, and every other member as it
    was. *)
Theorem filterApiResponse_projects_items
    (data : obj) (fields : FieldFilter) (records : list obj) :
  resolveFieldList fields <> [] ->
  obj_get data key_items = Some (JArr (map JObj records)) ->
  exists out,
    filterApiResponse data (Some fields) = inr out
    /\ obj_keys out = obj_keys data
    /\ obj_get out key_items
       = Some (JArr (map (fun r => JObj (filterObjectFields r (resolveFieldList fields)))
                       records))
    /\ forall key, key <> key_items -> obj_get out key = obj_get data key.
Proof.
  intros Hne Hitems.
  exists (obj_set data key_items
            (JArr (map (fun r => JObj (filterObjectFields r (resolveFieldList fields)))
                     records))).
  split.
  - unfold filterApiResponse, filterFields. rewrite Hitems.
    rewrite (filterRecords_objects records _ Hne).
    destruct (resolveFieldList fields); done.
  - split; [by eapply obj_set_keys_present|].
    split; [apply obj_get_set_same|].
    intros key Hkey. by apply obj_get_set_other.
Qed.

Lemma filterApiResponse_projects_items_witness :
  let data := [(lit "result", JBool true);
               (lit "items", JArr (map JObj [[(lit "_id", JNum 1); (lit "note", JNull)];
                                             [(lit "link", JStr (lit "u"))]]));
               (lit "count", JNum 2)] in
  resolveFieldList (Preset minimal) <> []
  /\ obj_get data key_items
     = Some (JArr (map JObj [[(lit "_id", JNum 1); (lit "note", JNull)];
                             [(lit "link", JStr (lit "u"))]]))
  /\ exists out,
      filterApiResponse data (Some (Preset minimal)) = inr out
      /\ obj_keys out = obj_keys data
      /\ obj_get out key_items
         = Some (JArr (map (fun r => JObj (filterObjectFields r
                                             (resolveFieldList (Preset minimal))))
                         [[(lit "_id", JNum 1); (lit "note", JNull)];
                          [(lit "link", JStr (lit "u"))]]))
      /\ forall key, key <> key_items -> obj_get out key = obj_get data key.
Proof.
  split; [discriminate|]. split; [reflexivity|].
  apply (filterApiResponse_projects_items
           [(lit "result", JBool true);
            (lit "items", JArr (map JObj [[(lit "_id", JNum 1); (lit "note", JNull)];
                                          [(lit "link", JStr (lit "u"))]]));
            (lit "count", JNum 2)]
           (Preset minimal)
           [[(lit "_id", JNum 1); (lit "note", JNull)]; [(lit "link", JStr (lit "u"))]]).
  - discriminate.
  - reflexivity.
Defined.

(** An envelope with neither an array under [items] nor an object or array
    under [item] comes back as it is, whatever the non-empty field list. *)
Theorem filterApiResponse_unrecognized_shape (data : obj) (fields : FieldFilter) :
  resolveFieldList fields <> [] ->
  (forall items, obj_get data key_items <> Some (JArr items)) ->
  (forall v, obj_get data key_item = Some v -> isPrimitive v = true) ->
  filterApiResponse data (Some fields) = inr data.
Proof.
  intros Hne Hitems Hitem. unfold filterApiResponse.
  destruct (resolveFieldList fields) as [|f fl]; [done|].
  destruct (obj_get data key_items) as [[| | | | items | |]|] eqn:Hi;
    try (by destruct (Hitems items));
    destruct (obj_get data key_item) as [[| | | | l | o |]|] eqn:Hv; try done;
    by specialize (Hitem _ eq_refl).
Qed.

Lemma filterApiResponse_unrecognized_shape_witness :
  let data := [(lit "result", JBool true); (lit "items", JNum 3); (lit "item", JNull);
               (lit "ids", JArr [JNum 1])] in
  resolveFieldList (FieldNames [lit "_id"]) <> []
  /\ (forall items, obj_get data key_items <> Some (JArr items))
  /\ (forall v, obj_get data key_item = Some v -> isPrimitive v = true)
  /\ filterApiResponse data (Some (FieldNames [lit "_id"])) = inr data.
Proof.
  assert (H1 : forall items,
             obj_get [(lit "result", JBool true); (lit "items", JNum 3); (lit "item", JNull);
                      (lit "ids", JArr [JNum 1])] key_items <> Some (JArr items)).
  { intros items. discriminate. }
  assert (H2 : forall v,
             obj_get [(lit "result", JBool true); (lit "items", JNum 3); (lit "item", JNull);
                      (lit "ids", JArr [JNum 1])] key_item = Some v -> isPrimitive v = true).
  { intros v Hv. vm_compute in Hv. by injection Hv as <-. }
  split; [discriminate|]. split; [exact H1|]. split; [exact H2|].
  apply (filterApiResponse_unrecognized_shape
           [(lit "result", JBool true); (lit "items", JNum 3); (lit "item", JNull);
            (lit "ids", JArr [JNum 1])]
           (FieldNames [lit "_id"])); [discriminate | exact H1 | exact H2].
Defined.

Lemma filterRecords_primitive (items : list json) (fieldList : list jsstring) (v : json) :
  fieldList <> [] -> v ∈ items -> isPrimitive v = true ->
  filterRecords items fieldList = inl TypeErrorIn.
Proof.
  intros Hne Hin Hprim. induction items as [|item items IH]; [by apply elem_of_nil in Hin|].
  simpl. apply elem_of_cons in Hin as [<-|Hin].
  - destruct fieldList; [done|]. by destruct v.
  - rewrite (IH Hin).
    destruct (filterRecord item fieldList) as [[]|] eqn:Hitem; try done;
      destruct fieldList; try done; by destruct item.
Qed.

(** A [null] or primitive element anywhere in [items] makes the projection
    throw the engine's TypeError instead of returning, under any non-empty
    field list. *)
Theorem filterApiResponse_primitive_item_throws
    (data : obj) (fields : FieldFilter) (items : list json) (v : json) :
  resolveFieldList fields <> [] ->
  obj_get data key_items = Some (JArr items) ->
  v ∈ items -> isPrimitive v = true ->
  filterApiResponse data (Some fields) = inl TypeErrorIn.
Proof.
  intros Hne Hitems Hin Hprim. unfold filterApiResponse, filterFields.
  rewrite Hitems, (filterRecords_primitive items _ v Hne Hin Hprim).
  destruct (resolveFieldList fields); done.
Qed.

Lemma filterApiResponse_primitive_item_throws_witness :
  let data := [(lit "result", JBool true);
               (lit "items", JArr [JObj [(lit "_id", JNum 1)]; JNull])] in
  resolveFieldList (FieldNames [lit "_id"]) <> []
  /\ obj_get data key_items = Some (JArr [JObj [(lit "_id", JNum 1)]; JNull])
  /\ JNull ∈ [JObj [(lit "_id", JNum 1)]; JNull]
  /\ isPrimitive JNull = true
  /\ filterApiResponse data (Some (FieldNames [lit "_id"])) = inl TypeErrorIn.
Proof.
  assert (Hin : JNull ∈ [JObj [(lit "_id", JNum 1)]; JNull]).
  { apply elem_of_cons. right. apply list_elem_of_here. }
  split; [discriminate|]. split; [reflexivity|]. split; [exact Hin|].
  split; [reflexivity|].
  apply (filterApiResponse_primitive_item_throws
           [(lit "result", JBool true);
            (lit "items", JArr [JObj [(lit "_id", JNum 1)]; JNull])]
           (FieldNames [lit "_id"])
           [JObj [(lit "_id", JNum 1)]; JNull] JNull);
    [discriminate | reflexivity | exact Hin | reflexivity].
Defined.

(* ====================================================================== *)
(** ** Highlights: further properties *)
(* ====================================================================== *)

Lemma findIndex_found (hs : list Highlight) (highlightId : jsstring) :
  (exists h, h ∈ hs /\ hl_id h = highlightId) ->
  exists i target,
    findIndex hs highlightId = Some i
    /\ hs !! i = Some target /\ hl_id target = highlightId
    /\ forall j earlier, (j < i)%nat -> hs !! j = Some earlier -> hl_id earlier <> highlightId.
Proof.
  intros (h & Hin & Hid).
  destruct (findIndex hs highlightId) as [i|] eqn:Hfind.
  - destruct (findIndex_Some _ _ _ Hfind) as (target & Hi & Htid & Hfirst).
    by exists i, target.
  - exfalso. by apply (proj1 (findIndex_None _ _) Hfind h).
Qed.

Section HighlightProperties.

Context (remote : Remote).

(** When the fetched array has an element with the requested id, highlight
    update issues the fetch and one update; the array written has the length
    of the fetched one, the first such element (no element before it has the
    id) with exactly the supplied members replaced (its id and every other
    member kept), and all other positions as fetched. *)
Theorem updateHighlight_replaces_supplied_members
    (w : world) (raindropId : Z) (highlightId : jsstring)
    (text color note : option jsstring) (raindrop : RaindropResponse) :
  on_getRaindrop remote (issued w) raindropId = inr raindrop ->
  (exists h, h ∈ existingHighlightsOf raindrop /\ hl_id h = highlightId) ->
  exists (i : nat) (target : Highlight) (updated : list Highlight),
    existingHighlightsOf raindrop !! i = Some target
    /\ hl_id target = highlightId
    /\ (forall j earlier, (j < i)%nat ->
                          existingHighlightsOf raindrop !! j = Some earlier ->
                          hl_id earlier <> highlightId)
    /\ updateHighlight remote raindropId highlightId (mkHighlightUpdates text color note) w
       = (on_updateRaindrop remote (issued w ++ [GetRaindrop raindropId]) raindropId
            (mkRaindropUpdate updated),
          mkWorld (issued w ++ [GetRaindrop raindropId;
                                UpdateRaindrop raindropId (mkRaindropUpdate updated)])
                  (watchTimestamps w))
    /\ length updated = length (existingHighlightsOf raindrop)
    /\ updated !! i
       = Some (mkHighlight (hl_id target)
                 (match text with Some t => t | None => hl_text target end)
                 (match note with Some n => Some n | None => hl_note target end)
                 (match color with Some c => Some c | None => hl_color target end)
                 (hl_other target))
    /\ forall j, j <> i -> updated !! j = existingHighlightsOf raindrop !! j.
Proof.
  intros Hget Hex.
  destruct (findIndex_found _ _ Hex) as (i & target & Hfind & Hi & Htid & Hfirst).
  exists i, target,
    (alter (fun h => applyUpdates h (mkHighlightUpdates text color note)) i
       (existingHighlightsOf raindrop)).
  split; [done|]. split; [done|]. split; [exact Hfirst|]. split.
  { unfold updateHighlight, bind, getRaindrop, call. rewrite Hget, Hfind.
    unfold updateRaindrop, call. simpl. by rewrite <- app_assoc. }
  split; [apply length_alter|]. split.
  - rewrite list_lookup_alter_eq, Hi. simpl. f_equal.
    destruct target, text, color, note; reflexivity.
  - intros j Hj. by apply list_lookup_alter_ne.
Qed.

(** When no element of the fetched array has the requested id, highlight
    delete fails with the highlight-not-found error after the fetch alone,
    and the tool reports that error. *)
Theorem deleteHighlight_unknown_id_fails
    (w : world) (raindropId : Z) (highlightId : jsstring) (minimal : bool)
    (raindrop : RaindropResponse) :
  on_getRaindrop remote (issued w) raindropId = inr raindrop ->
  (forall h, h ∈ existingHighlightsOf raindrop -> hl_id h <> highlightId) ->
  deleteHighlight remote raindropId highlightId w
  = (inl (HighlightNotFound highlightId raindropId),
     mkWorld (issued w ++ [GetRaindrop raindropId]) (watchTimestamps w))
  /\ deleteHighlightTool remote raindropId highlightId minimal w
     = (inr (createErrorResponse (HighlightNotFound highlightId raindropId)),
        mkWorld (issued w ++ [GetRaindrop raindropId]) (watchTimestamps w)).
Proof.
  intros Hget Hnone. apply findIndex_None in Hnone.
  assert (Hrun : deleteHighlight remote raindropId highlightId w
                 = (inl (HighlightNotFound highlightId raindropId),
                    mkWorld (issued w ++ [GetRaindrop raindropId]) (watchTimestamps w))).
  { unfold deleteHighlight, bind, getRaindrop, call. by rewrite Hget, Hnone. }
  split; [exact Hrun|].
  unfold deleteHighlightTool, toolHandler, bind, tryCatch. by rewrite Hrun.
Qed.

(** When the fetch of the bookmark throws, highlight update and highlight
    delete throw the same error and write nothing back. *)
Theorem highlight_ops_propagate_fetch_error
    (w : world) (raindropId : Z) (highlightId : jsstring)
    (updates : HighlightUpdates) (error : Error) :
  on_getRaindrop remote (issued w) raindropId = inl error ->
  updateHighlight remote raindropId highlightId updates w
  = (inl error, mkWorld (issued w ++ [GetRaindrop raindropId]) (watchTimestamps w))
  /\ deleteHighlight remote raindropId highlightId w
     = (inl error, mkWorld (issued w ++ [GetRaindrop raindropId]) (watchTimestamps w)).
Proof.
  intros Hget.
  unfold updateHighlight, deleteHighlight, bind, getRaindrop, call.
  by rewrite Hget.
Qed.

(** Deleting a highlight whose text is already empty is no error: the id is
    still found, and the update writes the fetched array back unchanged. *)
Theorem deleteHighlight_again_rewrites_same_array
    (w : world) (raindropId : Z) (highlightId : jsstring) (raindrop : RaindropResponse) :
  on_getRaindrop remote (issued w) raindropId = inr raindrop ->
  (exists h, h ∈ existingHighlightsOf raindrop /\ hl_id h = highlightId) ->
  (forall h, h ∈ existingHighlightsOf raindrop -> hl_id h = highlightId -> hl_text h = []) ->
  deleteHighlight remote raindropId highlightId w
  = (on_updateRaindrop remote (issued w ++ [GetRaindrop raindropId]) raindropId
       (mkRaindropUpdate (existingHighlightsOf raindrop)),
     mkWorld (issued w ++ [GetRaindrop raindropId;
                           UpdateRaindrop raindropId
                             (mkRaindropUpdate (existingHighlightsOf raindrop))])
             (watchTimestamps w)).
Proof.
  intros Hget Hex Hempty.
  destruct (findIndex_found _ _ Hex) as (i & target & Hfind & Hi & Htid & Hfirst).
  assert (Hsame : alter tombstone i (existingHighlightsOf raindrop)
                  = existingHighlightsOf raindrop).
  { rewrite <- (list_alter_id id (existingHighlightsOf raindrop) i) at 2 by done.
    apply list_alter_ext; [|done]. intros h Hh.
    assert (Hin : h ∈ existingHighlightsOf raindrop) by (by eapply list_elem_of_lookup_2).
    assert (Hid : hl_id h = highlightId) by congruence.
    specialize (Hempty h Hin Hid). destruct h. simpl in *. by subst. }
  unfold deleteHighlight, bind, getRaindrop, call. rewrite Hget, Hfind, Hsame.
  unfold updateRaindrop, call. simpl. by rewrite <- app_assoc.
Qed.

End HighlightProperties.

Lemma updateHighlight_replaces_supplied_members_witness :
  let remote := highlightService [sampleHighlight "h0" "bar"; sampleHighlight "h1" "foo"] in
  let raindrop := bookmarkWith [sampleHighlight "h0" "bar"; sampleHighlight "h1" "foo"] in
  on_getRaindrop remote (issued emptyWorld) 1 = inr raindrop
  /\ (exists h, h ∈ existingHighlightsOf raindrop /\ hl_id h = lit "h1")
  /\ exists (i : nat) (target : Highlight) (updated : list Highlight),
      existingHighlightsOf raindrop !! i = Some target
      /\ hl_id target = lit "h1"
      /\ (forall j earlier, (j < i)%nat ->
                            existingHighlightsOf raindrop !! j = Some earlier ->
                            hl_id earlier <> lit "h1")
      /\ updateHighlight remote 1 (lit "h1")
           (mkHighlightUpdates None None (Some (lit "seen"))) emptyWorld
         = (on_updateRaindrop remote (issued emptyWorld ++ [GetRaindrop 1]) 1
              (mkRaindropUpdate updated),
            mkWorld (issued emptyWorld ++ [GetRaindrop 1;
                                          UpdateRaindrop 1 (mkRaindropUpdate updated)])
                    (watchTimestamps emptyWorld))
      /\ length updated = length (existingHighlightsOf raindrop)
      /\ updated !! i
         = Some (mkHighlight (hl_id target) (hl_text target) (Some (lit "seen"))
                   (hl_color target) (hl_other target))
      /\ forall j, j <> i -> updated !! j = existingHighlightsOf raindrop !! j.
Proof.
  assert (Hex : exists h,
             h ∈ existingHighlightsOf
                   (bookmarkWith [sampleHighlight "h0" "bar"; sampleHighlight "h1" "foo"])
             /\ hl_id h = lit "h1").
  { exists (sampleHighlight "h1" "foo"). split; [|reflexivity].
    apply elem_of_cons. right. apply list_elem_of_here. }
  split; [reflexivity|]. split; [exact Hex|].
  apply (updateHighlight_replaces_supplied_members
           (highlightService [sampleHighlight "h0" "bar"; sampleHighlight "h1" "foo"])
           emptyWorld 1 (lit "h1") None None (Some (lit "seen"))
           (bookmarkWith [sampleHighlight "h0" "bar"; sampleHighlight "h1" "foo"])
           eq_refl Hex).
Defined.

Lemma deleteHighlight_unknown_id_fails_witness :
  let remote := highlightService [sampleHighlight "h1" "foo"] in
  let raindrop := bookmarkWith [sampleHighlight "h1" "foo"] in
  on_getRaindrop remote (issued emptyWorld) 1 = inr raindrop
  /\ (forall h, h ∈ existingHighlightsOf raindrop -> hl_id h <> lit "h9")
  /\ deleteHighlight remote 1 (lit "h9") emptyWorld
     = (inl (HighlightNotFound (lit "h9") 1),
        mkWorld (issued emptyWorld ++ [GetRaindrop 1]) (watchTimestamps emptyWorld))
  /\ deleteHighlightTool remote 1 (lit "h9") true emptyWorld
     = (inr (createErrorResponse (HighlightNotFound (lit "h9") 1)),
        mkWorld (issued emptyWorld ++ [GetRaindrop 1]) (watchTimestamps emptyWorld)).
Proof.
  assert (Hnone : forall h, h ∈ existingHighlightsOf (bookmarkWith [sampleHighlight "h1" "foo"]) ->
                            hl_id h <> lit "h9").
  { intros h Hin. apply list_elem_of_singleton in Hin. subst h. discriminate. }
  split; [reflexivity|]. split; [exact Hnone|].
  apply (deleteHighlight_unknown_id_fails
           (highlightService [sampleHighlight "h1" "foo"])
           emptyWorld 1 (lit "h9") true (bookmarkWith [sampleHighlight "h1" "foo"])
           eq_refl Hnone).
Defined.

Lemma highlight_ops_propagate_fetch_error_witness :
  let remote := createService (fun _ => false) in
  on_getRaindrop remote (issued emptyWorld) 1 = inl unreachable
  /\ updateHighlight remote 1 (lit "h1") (mkHighlightUpdates None None None) emptyWorld
     = (inl unreachable,
        mkWorld (issued emptyWorld ++ [GetRaindrop 1]) (watchTimestamps emptyWorld))
  /\ deleteHighlight remote 1 (lit "h1") emptyWorld
     = (inl unreachable,
        mkWorld (issued emptyWorld ++ [GetRaindrop 1]) (watchTimestamps emptyWorld)).
Proof.
  split; [reflexivity|].
  apply (highlight_ops_propagate_fetch_error (createService (fun _ => false))
           emptyWorld 1 (lit "h1") (mkHighlightUpdates None None None) unreachable eq_refl).
Defined.

Lemma deleteHighlight_again_rewrites_same_array_witness :
  let remote := highlightService [sampleHighlight "h0" "bar"; sampleHighlight "h1" ""] in
  let raindrop := bookmarkWith [sampleHighlight "h0" "bar"; sampleHighlight "h1" ""] in
  on_getRaindrop remote (issued emptyWorld) 1 = inr raindrop
  /\ (exists h, h ∈ existingHighlightsOf raindrop /\ hl_id h = lit "h1")
  /\ (forall h, h ∈ existingHighlightsOf raindrop -> hl_id h = lit "h1" -> hl_text h = [])
  /\ deleteHighlight remote 1 (lit "h1") emptyWorld
     = (on_updateRaindrop remote (issued emptyWorld ++ [GetRaindrop 1]) 1
          (mkRaindropUpdate (existingHighlightsOf raindrop)),
        mkWorld (issued emptyWorld ++ [GetRaindrop 1;
                                      UpdateRaindrop 1
                                        (mkRaindropUpdate (existingHighlightsOf raindrop))])
                (watchTimestamps emptyWorld)).
Proof.
  assert (Hex : exists h,
             h ∈ existingHighlightsOf
                   (bookmarkWith [sampleHighlight "h0" "bar"; sampleHighlight "h1" ""])
             /\ hl_id h = lit "h1").
  { exists (sampleHighlight "h1" ""). split; [|reflexivity].
    apply elem_of_cons. right. apply list_elem_of_here. }
  assert (Hempty : forall h,
             h ∈ existingHighlightsOf
                   (bookmarkWith [sampleHighlight "h0" "bar"; sampleHighlight "h1" ""]) ->
             hl_id h = lit "h1" -> hl_text h = []).
  { intros h [->|Hin]%elem_of_cons Hid; [discriminate|].
    apply list_elem_of_singleton in Hin. by subst h. }
  split; [reflexivity|]. split; [exact Hex|]. split; [exact Hempty|].
  apply (deleteHighlight_again_rewrites_same_array
           (highlightService [sampleHighlight "h0" "bar"; sampleHighlight "h1" ""])
           emptyWorld 1 (lit "h1")
           (bookmarkWith [sampleHighlight "h0" "bar"; sampleHighlight "h1" ""])
           eq_refl Hex Hempty).
Defined.

(* ====================================================================== *)
(** ** Watch-collection: further properties *)
(* ====================================================================== *)

Section WatchRuns.

Context (remote : Remote).

(** Every call that is not a reset, spelled out: the floor it picks, the one
    fetch, and what each answer of the fetch leads to. *)
Lemma watchCollection_run
    (w : world) (now collectionId : Z) (since : option isotime) (resetWatch : option bool) :
  resetWatch <> Some true ->
  watchCollection remote now collectionId since resetWatch w
  = let checkSince :=
      match since with
      | Some s => s
      | None => match watchTimestamps w !! collectionId with
                | Some t => t
                | None => Some now
                end
      end in
    match on_getRaindrops remote (issued w) collectionId watchParams with
    | inl error =>
        (inl error,
         mkWorld (issued w ++ [GetRaindrops collectionId watchParams]) (watchTimestamps w))
    | inr result =>
        (inr (mkWatchResult collectionId checkSince (Some now)
                (filter (fun item => createdAfter checkSince item = true) (rs_items result))
                (length (filter (fun item => createdAfter checkSince item = true)
                           (rs_items result)))),
         mkWorld (issued w ++ [GetRaindrops collectionId watchParams])
                 (<[collectionId := Some now]> (watchTimestamps w)))
    end.
Proof.
  intros Hreset.
  assert (Hbody : forall r, r <> Some true ->
            watchCollection remote now collectionId since r w
            = watchCollection remote now collectionId since None w).
  { intros [[|]|] Hr; done. }
  rewrite (Hbody resetWatch Hreset).
  unfold watchCollection, bind, getWatch, ret, getRaindrops, call, setWatch.
  destruct since as [s|]; simpl;
    destruct (on_getRaindrops remote (issued w) collectionId watchParams); done.
Qed.

(** An explicit [since] is the floor whatever cursor is stored; the cursor
    is then set to [now], not to [since]. *)
Theorem watchCollection_explicit_since
    (w : world) (now collectionId : Z) (s : isotime) (resetWatch : option bool)
    (result : RaindropsResponse) :
  resetWatch <> Some true ->
  on_getRaindrops remote (issued w) collectionId watchParams = inr result ->
  exists r w',
    watchCollection remote now collectionId (Some s) resetWatch w = (inr r, w')
    /\ wr_since r = s
    /\ wr_until r = Some now
    /\ wr_newItems r
       = filter (fun item => createdAfter s item = true) (rs_items result)
    /\ watchTimestamps w' !! collectionId = Some (Some now).
Proof.
  intros Hreset Hfetch. rewrite (watchCollection_run _ _ _ _ _ Hreset). simpl.
  rewrite Hfetch. eexists _, _. split; [done|]. simpl.
  repeat split. apply lookup_insert_eq.
Qed.

(** Two calls in a row. After any call that returns (a reset included) at
    time [now1], a following call without [since] and without reset takes
    [now1] as its floor: it reports the fetched items created later than the
    previous call, and moves the cursor to its own time. *)
Theorem watchCollection_next_call_floor
    (w : world) (now1 now2 collectionId : Z) (since1 : option isotime)
    (resetWatch1 : option bool) (r1 : WatchResult) (result2 : RaindropsResponse) :
  (watchCollection remote now1 collectionId since1 resetWatch1 w).1 = inr r1 ->
  on_getRaindrops remote
    (issued (watchCollection remote now1 collectionId since1 resetWatch1 w).2)
    collectionId watchParams = inr result2 ->
  exists r2 w2,
    watchCollection remote now2 collectionId None None
      (watchCollection remote now1 collectionId since1 resetWatch1 w).2 = (inr r2, w2)
    /\ wr_since r2 = Some now1
    /\ wr_until r2 = Some now2
    /\ wr_newItems r2
       = filter (fun item => createdAfter (Some now1) item = true) (rs_items result2)
    /\ wr_count r2 = length (wr_newItems r2)
    /\ watchTimestamps w2 !! collectionId = Some (Some now2).
Proof.
  intros Hfirst Hfetch.
  assert (Hcursor : watchTimestamps
                      (watchCollection remote now1 collectionId since1 resetWatch1 w).2
                    !! collectionId = Some (Some now1)).
  { destruct (decide (resetWatch1 = Some true)) as [->|Hreset].
    - simpl. apply lookup_insert_eq.
    - rewrite (watchCollection_run _ _ _ _ _ Hreset) in Hfirst |- *. simpl in *.
      destruct (on_getRaindrops remote (issued w) collectionId watchParams); [done|].
      simpl. apply lookup_insert_eq. }
  rewrite watchCollection_run by done. simpl. rewrite Hcursor, Hfetch.
  eexists _, _. split; [done|]. simpl. repeat split. apply lookup_insert_eq.
Qed.

(** A call touches the cursor of its own collection only, and a call that
    throws leaves the whole map as it was. *)
Theorem watchCollection_cursor_frame
    (w : world) (now collectionId : Z) (since : option isotime) (resetWatch : option bool) :
  (forall other, other <> collectionId ->
     watchTimestamps (watchCollection remote now collectionId since resetWatch w).2 !! other
     = watchTimestamps w !! other)
  /\ (forall error,
        (watchCollection remote now collectionId since resetWatch w).1 = inl error ->
        watchTimestamps (watchCollection remote now collectionId since resetWatch w).2
        = watchTimestamps w).
Proof.
  destruct (decide (resetWatch = Some true)) as [->|Hreset].
  - simpl. split; [|done]. intros other Hother. by apply lookup_insert_ne.
  - rewrite (watchCollection_run _ _ _ _ _ Hreset). simpl.
    destruct (on_getRaindrops remote (issued w) collectionId watchParams); simpl.
    + split; done.
    + split; [|done]. intros other Hother. by apply lookup_insert_ne.
Qed.

(** What a returning call reports: [count] is the number of [newItems];
    every reported item carries a valid creation time strictly later than
    the floor [since], which is then itself a valid time; and the reported
    items are fetched items, in the order of the listing. *)
Theorem watchCollection_reports_later_items
    (w : world) (now collectionId : Z) (since : option isotime) (resetWatch : option bool)
    (r : WatchResult) :
  (watchCollection remote now collectionId since resetWatch w).1 = inr r ->
  wr_count r = length (wr_newItems r)
  /\ (forall item, item ∈ wr_newItems r ->
        exists floor created,
          wr_since r = Some floor /\ rd_created item = Some (Some created)
          /\ floor < created)
  /\ (forall result,
        on_getRaindrops remote (issued w) collectionId watchParams = inr result ->
        wr_newItems r `sublist_of` rs_items result).
Proof.
  destruct (decide (resetWatch = Some true)) as [->|Hreset].
  - simpl. intros [= <-]. simpl. split; [done|]. split.
    + intros item Hin. by apply elem_of_nil in Hin.
    + intros result _. apply sublist_nil_l.
  - rewrite (watchCollection_run _ _ _ _ _ Hreset). simpl.
    destruct (on_getRaindrops remote (issued w) collectionId watchParams) as [|result];
      [done|].
    simpl. intros [= <-]. simpl. split; [done|]. split.
    + intros item [Hafter _]%list_elem_of_filter. unfold createdAfter in Hafter.
      destruct (rd_created item) as [[created|]|]; try done.
      destruct (match since with
                | Some s => s
                | None => match watchTimestamps w !! collectionId with
                          | Some t => t
                          | None => Some now
                          end
                end) as [floor|]; [|done].
      exists floor, created. repeat split. by apply Z.ltb_lt.
    + intros result' [= <-]. apply sublist_filter.
Qed.

End WatchRuns.

Lemma watchCollection_explicit_since_witness :
  let remote := listingService [bookmarkCreatedAt 900; bookmarkCreatedAt 400] in
  let w := mkWorld [] (<[7 := Some 100]> ∅) in
  (None : option bool) <> Some true
  /\ on_getRaindrops remote (issued w) 7 watchParams
     = inr (mkRaindropsResponse true [bookmarkCreatedAt 900; bookmarkCreatedAt 400]
              [(lit "count", JNum 1)])
  /\ exists r w',
      watchCollection remote 1000 7 (Some (Some 500)) None w = (inr r, w')
      /\ wr_since r = Some 500
      /\ wr_until r = Some 1000
      /\ wr_newItems r
         = filter (fun item => createdAfter (Some 500) item = true)
             [bookmarkCreatedAt 900; bookmarkCreatedAt 400]
      /\ watchTimestamps w' !! 7 = Some (Some 1000).
Proof.
  split; [discriminate|]. split; [reflexivity|].
  apply (watchCollection_explicit_since
           (listingService [bookmarkCreatedAt 900; bookmarkCreatedAt 400])
           (mkWorld [] (<[7 := Some 100]> ∅)) 1000 7 (Some 500) None
           (mkRaindropsResponse true [bookmarkCreatedAt 900; bookmarkCreatedAt 400]
              [(lit "count", JNum 1)])).
  - discriminate.
  - reflexivity.
Defined.

Lemma watchCollection_next_call_floor_witness :
  let remote := listingService [bookmarkCreatedAt 1500; bookmarkCreatedAt 900] in
  (watchCollection remote 1000 7 None None emptyWorld).1
  = inr (mkWatchResult 7 (Some 1000) (Some 1000) [bookmarkCreatedAt 1500] 1)
  /\ on_getRaindrops remote
       (issued (watchCollection remote 1000 7 None None emptyWorld).2) 7 watchParams
     = inr (mkRaindropsResponse true [bookmarkCreatedAt 1500; bookmarkCreatedAt 900]
              [(lit "count", JNum 1)])
  /\ exists r2 w2,
      watchCollection remote 2000 7 None None
        (watchCollection remote 1000 7 None None emptyWorld).2 = (inr r2, w2)
      /\ wr_since r2 = Some 1000
      /\ wr_until r2 = Some 2000
      /\ wr_newItems r2
         = filter (fun item => createdAfter (Some 1000) item = true)
             [bookmarkCreatedAt 1500; bookmarkCreatedAt 900]
      /\ wr_count r2 = length (wr_newItems r2)
      /\ watchTimestamps w2 !! 7 = Some (Some 2000).
Proof.
  split; [reflexivity|]. split; [reflexivity|].
  apply (watchCollection_next_call_floor
           (listingService [bookmarkCreatedAt 1500; bookmarkCreatedAt 900])
           emptyWorld 1000 2000 7 None None
           (mkWatchResult 7 (Some 1000) (Some 1000) [bookmarkCreatedAt 1500] 1)
           (mkRaindropsResponse true [bookmarkCreatedAt 1500; bookmarkCreatedAt 900]
              [(lit "count", JNum 1)])
           eq_refl eq_refl).
Defined.

Lemma watchCollection_reports_later_items_witness :
  let remote := listingService [bookmarkCreatedAt 900; bookmarkCreatedAt 400] in
  let r := mkWatchResult 7 (Some 500) (Some 1000) [bookmarkCreatedAt 900] 1 in
  (watchCollection remote 1000 7 (Some (Some 500)) None emptyWorld).1 = inr r
  /\ wr_count r = length (wr_newItems r)
  /\ (forall item, item ∈ wr_newItems r ->
        exists floor created,
          wr_since r = Some floor /\ rd_created item = Some (Some created)
          /\ floor < created)
  /\ (forall result,
        on_getRaindrops remote (issued emptyWorld) 7 watchParams = inr result ->
        wr_newItems r `sublist_of` rs_items result).
Proof.
  split; [reflexivity|].
  apply (watchCollection_reports_later_items
           (listingService [bookmarkCreatedAt 900; bookmarkCreatedAt 400])
           emptyWorld 1000 7 (Some (Some 500)) None
           (mkWatchResult 7 (Some 500) (Some 1000) [bookmarkCreatedAt 900] 1) eq_refl).
Defined.

(** An unparseable [since] is a floor nothing is later than. *)
Example watchCollection_invalid_since :
  (watchCollection (listingService [bookmarkCreatedAt 900]) 1000 7 (Some None) None
     emptyWorld).1
  = inr (mkWatchResult 7 None (Some 1000) [] 0).
Proof. reflexivity. Qed.

(* ====================================================================== *)
(** ** Bulk creation: further properties *)
(* ====================================================================== *)

Lemma delayCalls_bulkEvents_later (delayMs : Z) (datas : list NewRaindrop) :
  forall i,
    delayCalls (bulkEvents delayMs (S i) datas)
    = if 0 <? delayMs then replicate (length datas) delayMs else [].
Proof.
  unfold delayCalls. induction datas as [|d datas IH]; intros i; simpl.
  - by destruct (0 <? delayMs).
  - rewrite omap_app. simpl. rewrite IH. unfold pause.
    by destruct (0 <? delayMs).
Qed.

Lemma delayCalls_bulkEvents (delayMs : Z) (datas : list NewRaindrop) :
  delayCalls (bulkEvents delayMs 0 datas)
  = if 0 <? delayMs then replicate (length datas - 1) delayMs else [].
Proof.
  destruct datas as [|d datas]; simpl.
  - by destruct (0 <? delayMs).
  - unfold delayCalls. simpl. fold (delayCalls (bulkEvents delayMs 1 datas)).
    rewrite delayCalls_bulkEvents_later. by rewrite Nat.sub_0_r.
Qed.

Section BulkRuns.

Context (remote : Remote).

(** With [continueOnError] true every item of the input is attempted exactly
    once, in input order, whatever fails; each attempt is counted as a
    success or as a failure. *)
Theorem bulk_create_continue_attempts_all
    (raindrops : list BulkItem) (delayMs : Z) (w : world) :
  exists (results : BulkResults) (w' : world) (evs : list event),
    bulkRun remote raindrops delayMs true w = (inr results, w')
    /\ issued w' = issued w ++ evs
    /\ createCalls evs = map bulkData raindrops
    /\ (successful results + failed results = length raindrops)%nat
    /\ total results = length raindrops.
Proof.
  destruct (bulkLoop_spec remote delayMs true raindrops 0
              (mkBulkResults (length raindrops) 0 0 [] []) w)
    as (results & w' & n & s & f & Hrun & Hn & Hev & Hwt & Htot & Hsf & Hs & Hc & Hf & He & Hall).
  exists results, w', (bulkEvents delayMs 0 (map bulkData raindrops)).
  simpl in *. subst n. rewrite Hall, firstn_all in Hev.
  split; [exact Hrun|]. split; [exact Hev|].
  split; [apply createCalls_bulkEvents|]. split; [lia | exact Htot].
Qed.

(** The waits of a run: the first event, if any, is a create call, never a
    wait; with a positive [delayMs] there is one wait of [delayMs] fewer
    than attempts, and without one there is no wait at all. *)
Theorem bulk_create_waits_between_attempts
    (raindrops : list BulkItem) (delayMs : Z) (continueOnError : bool) (w : world) :
  exists (results : BulkResults) (w' : world) (evs : list event),
    bulkRun remote raindrops delayMs continueOnError w = (inr results, w')
    /\ issued w' = issued w ++ evs
    /\ length (createCalls evs) = (successful results + failed results)%nat
    /\ delayCalls evs
       = (if 0 <? delayMs
          then replicate (successful results + failed results - 1) delayMs
          else [])
    /\ (evs = [] \/ exists d, head evs = Some (CreateRaindrop d)).
Proof.
  destruct (bulkLoop_spec remote delayMs continueOnError raindrops 0
              (mkBulkResults (length raindrops) 0 0 [] []) w)
    as (results & w' & n & s & f & Hrun & Hn & Hev & Hwt & Htot & Hsf & Hs & Hc & Hf & He & Hall).
  exists results, w', (bulkEvents delayMs 0 (map bulkData (take n raindrops))).
  simpl in *.
  assert (Hlen : length (map bulkData (take n raindrops)) = n).
  { rewrite length_map, length_take. lia. }
  split; [exact Hrun|]. split; [exact Hev|].
  split; [rewrite createCalls_bulkEvents; lia|].
  split.
  - rewrite delayCalls_bulkEvents, Hlen. by replace (successful results + failed results)%nat with n by lia.
  - destruct (map bulkData (take n raindrops)) as [|d datas]; [by left | right].
    by exists d.
Qed.

(** When the remote answers every create call, nothing is recorded as
    failed: all items are created and the summary reports success. *)
Lemma bulkLoop_all_answered (delayMs : Z) (continueOnError : bool)
    (raindrops : list BulkItem) :
  (forall before data, exists response, on_createRaindrop remote before data = inr response) ->
  forall (i : nat) (results : BulkResults) (w : world),
  exists results' w',
    bulkLoop remote delayMs continueOnError i raindrops results w = (inr results', w')
    /\ failed results' = failed results
    /\ errors results' = errors results
    /\ successful results' = (successful results + length raindrops)%nat.
Proof.
  intros Hanswer. induction raindrops as [|raindrop rest IH]; intros i results w.
  - exists results, w. simpl. repeat split. lia.
  - cbn [bulkLoop]. unfold bind at 1. rewrite bulk_attempt.
    destruct (Hanswer (issued w ++ gap delayMs i) (bulkData raindrop)) as [response ->].
    destruct (IH (S i) (recordSuccess results (rr_item response))
                (mkWorld (issued w ++ gap delayMs i ++ [CreateRaindrop (bulkData raindrop)])
                   (watchTimestamps w)))
      as (results' & w' & Hrun & Hf & He & Hs).
    exists results', w'. rewrite Hrun. simpl in *. repeat split; try done. lia.
Qed.

Theorem bulk_create_all_answered_succeeds
    (raindrops : list BulkItem) (delayMs : Z) (continueOnError minimal : bool) (w : world) :
  (forall before data, exists response, on_createRaindrop remote before data = inr response) ->
  exists (results : BulkResults) (w' : world),
    bulkRun remote raindrops delayMs continueOnError w = (inr results, w')
    /\ successful results = length raindrops
    /\ failed results = 0%nat
    /\ errors results = []
    /\ report_success (bulkReport results minimal) = true.
Proof.
  intros Hanswer.
  destruct (bulkLoop_all_answered delayMs continueOnError raindrops Hanswer 0
              (mkBulkResults (length raindrops) 0 0 [] []) w)
    as (results & w' & Hrun & Hf & He & Hs).
  exists results, w'. simpl in *.
  split; [exact Hrun|]. split; [exact Hs|]. split; [exact Hf|]. split; [exact He|].
  destruct minimal; simpl; by rewrite Hf.
Qed.

(** Error entries point at the input: the index of every recorded error is
    the position of an item of the input list, and its link is the link of
    that item. *)
Lemma bulkLoop_errors_name_items (all : list BulkItem) (delayMs : Z)
    (continueOnError : bool) (raindrops : list BulkItem) :
  forall (i : nat) (results : BulkResults) (w : world),
    drop i all = raindrops ->
    Forall (errorNamesItem all) (errors results) ->
    forall results',
      (bulkLoop remote delayMs continueOnError i raindrops results w).1 = inr results' ->
      Forall (errorNamesItem all) (errors results').
Proof.
  induction raindrops as [|raindrop rest IH]; intros i results w Hdrop Hok results'.
  - simpl. by intros [= <-].
  - assert (Hi : all !! i = Some raindrop).
    { rewrite <- (Nat.add_0_r i), <- lookup_drop, Hdrop. done. }
    assert (Hrest : drop (S i) all = rest).
    { replace (S i) with (i + 1)%nat by lia. by rewrite <- drop_drop, Hdrop. }
    cbn [bulkLoop]. unfold bind at 1. rewrite bulk_attempt.
    destruct (on_createRaindrop remote (issued w ++ gap delayMs i) (bulkData raindrop))
      as [error|response].
    + assert (Hok' : Forall (errorNamesItem all)
                       (errors (recordFailure results i raindrop error))).
      { simpl. apply Forall_app. split; [done|]. apply Forall_singleton.
        by exists raindrop. }
      destruct continueOnError.
      * by apply IH.
      * simpl. by intros [= <-].
    + by apply IH.
Qed.

Theorem bulk_create_errors_name_items
    (raindrops : list BulkItem) (delayMs : Z) (continueOnError : bool) (w : world)
    (results : BulkResults) :
  (bulkRun remote raindrops delayMs continueOnError w).1 = inr results ->
  Forall (errorNamesItem raindrops) (errors results).
Proof.
  unfold bulkRun.
  apply (bulkLoop_errors_name_items raindrops delayMs continueOnError raindrops 0); done.
Qed.

End BulkRuns.

Lemma bulk_create_all_answered_succeeds_witness :
  let remote := createService (fun _ => false) in
  let items := [linkOnly "https://a.example"; linkOnly "https://b.example"] in
  (forall before data, exists response, on_createRaindrop remote before data = inr response)
  /\ exists (results : BulkResults) (w' : world),
      bulkRun remote items 0 false emptyWorld = (inr results, w')
      /\ successful results = length items
      /\ failed results = 0%nat
      /\ errors results = []
      /\ report_success (bulkReport results true) = true.
Proof.
  assert (Hanswer : forall before data, exists response,
             on_createRaindrop (createService (fun _ => false)) before data = inr response).
  { intros before data. by eexists. }
  split; [exact Hanswer|].
  apply (bulk_create_all_answered_succeeds (createService (fun _ => false))
           [linkOnly "https://a.example"; linkOnly "https://b.example"] 0 false true
           emptyWorld Hanswer).
Defined.

Lemma bulk_create_errors_name_items_witness :
  let remote := createService (fun k => Nat.eqb k 1) in
  let items := [linkOnly "https://a.example"; linkOnly "https://b.example";
                linkOnly "https://c.example"] in
  let results :=
    mkBulkResults 3 2 1
      [mkRaindrop None None [(lit "link", JStr (lit "https://a.example"))];
       mkRaindrop None None [(lit "link", JStr (lit "https://c.example"))]]
      [mkBulkError 1 (lit "https://b.example") unreachable] in
  (bulkRun remote items 500 true emptyWorld).1 = inr results
  /\ Forall (errorNamesItem items) (errors results).
Proof.
  split; [reflexivity|].
  apply (bulk_create_errors_name_items (createService (fun k => Nat.eqb k 1))
           [linkOnly "https://a.example"; linkOnly "https://b.example";
            linkOnly "https://c.example"] 500 true emptyWorld
           (mkBulkResults 3 2 1
              [mkRaindrop None None [(lit "link", JStr (lit "https://a.example"))];
               mkRaindrop None None [(lit "link", JStr (lit "https://c.example"))]]
              [mkBulkError 1 (lit "https://b.example") unreachable])
           eq_refl).
Defined.

(* ====================================================================== *)
(** ** Tool wrapper: further properties *)
(* ====================================================================== *)


(* ====================================================================== *)
(** ** Response handling: properties *)
(* ====================================================================== *)

(** [handleResponse] returns exactly when the body parses to a value other
    than [null], the HTTP status is a success and the payload does not carry
    [result: false]; what it returns is the payload normalised. *)
Theorem handleResponse_returns_iff (response : Response) (v : json) :
  handleResponse response = inr v
  <-> exists data,
        resp_json response = Some data
        /\ data <> JNull
        /\ resp_ok response = true
        /\ memberOf data (lit "result") <> Some (JBool false)
        /\ v = cleanTitlesInData data.
Proof.
  unfold handleResponse. split.
  - destruct (resp_json response) as [data|]; [|done].
    destruct (resp_ok response) eqn:Hok.
    + assert (Hres : resultIsFalse data = false ->
                     memberOf data (lit "result") <> Some (JBool false)).
      { unfold resultIsFalse.
        destruct (memberOf data (lit "result")) as [[|[|]| | | | |]|]; done. }
      destruct data; simpl; try done;
        destruct (resultIsFalse _) eqn:Hr; try done;
        intros [= <-]; eexists; repeat split; try done; by apply Hres.
    + destruct data; done.
  - intros (data & -> & Hnull & -> & Hres & ->).
    assert (Hr : resultIsFalse data = false).
    { unfold resultIsFalse.
      destruct (memberOf data (lit "result")) as [[|[|]| | | | |]|]; done. }
    destruct data; try done; simpl; by rewrite Hr.
Qed.

(** Where the thrown value comes from. *)
Lemma handleResponse_failure_origin (response : Response) :
  (forall m, handleResponse response = inl (ServiceMessage m) ->
     truthy m = true
     /\ exists data,
          resp_json response = Some data
          /\ (memberOf data (lit "errorMessage") = Some m
              \/ (memberOf data (lit "error") = Some m
                  /\ forall m', memberOf data (lit "errorMessage") = Some m' ->
                                truthy m' = false)))
  /\ (forall status, handleResponse response = inl (RequestFailed status) ->
        status = resp_status response
        /\ exists data,
             resp_json response = Some data
             /\ (forall m', memberOf data (lit "errorMessage") = Some m' -> truthy m' = false)
             /\ (forall m', memberOf data (lit "error") = Some m' -> truthy m' = false)).
Proof.
  unfold handleResponse.
  destruct (resp_json response) as [data|]; [|by split].
  assert (Hfail : forall e,
            (if negb (resp_ok response) || resultIsFalse data
             then inl (failureOf data (resp_status response))
             else inr (cleanTitlesInData data)) = inl e ->
            e = failureOf data (resp_status response)).
  { intros e. destruct (negb (resp_ok response) || resultIsFalse data); [|done].
    by intros [= <-]. }
  assert (Hcases :
    (forall m, failureOf data (resp_status response) = ServiceMessage m ->
       truthy m = true
       /\ (memberOf data (lit "errorMessage") = Some m
           \/ (memberOf data (lit "error") = Some m
               /\ forall m', memberOf data (lit "errorMessage") = Some m' ->
                             truthy m' = false)))
    /\ (forall status, failureOf data (resp_status response) = RequestFailed status ->
          status = resp_status response
          /\ (forall m', memberOf data (lit "errorMessage") = Some m' -> truthy m' = false)
          /\ (forall m', memberOf data (lit "error") = Some m' -> truthy m' = false))).
  { unfold failureOf.
    destruct (memberOf data (lit "errorMessage")) as [m1|];
      [destruct (truthy m1) eqn:H1|];
      (destruct (memberOf data (lit "error")) as [m2|];
       [destruct (truthy m2) eqn:H2|]);
      split; intros x Hx; try discriminate; try (injection Hx as <-);
      repeat split; try done; try (by left);
      try (right; split; [done|]); try (by intros ? [= <-]). }
  destruct Hcases as [Hmsg Hstatus].
  split.
  - intros m Hm. destruct data; try done;
      (apply Hfail in Hm; symmetry in Hm; destruct (Hmsg m Hm) as [Ht Horigin];
       split; [exact Ht|]; eexists; split; [done | exact Horigin]).
  - intros status Hs. destruct data; try done;
      (apply Hfail in Hs; symmetry in Hs; destruct (Hstatus status Hs) as (He & H1 & H2);
       split; [exact He|]; eexists; split; [done|]; split; assumption).
Qed.

(** The value handed to [new Error] is taken from the payload only when it
    is truthy: it is the payload's [errorMessage] if that is truthy, else its
    [error], which is then truthy; so a string taken from the payload is
    never the empty string.  The status fallback is used only when neither
    member is truthy.  (The message of the [Error] is the string conversion
    of that value; for a truthy value that is no string, such as an empty
    array, the conversion may be empty.) *)
Theorem handleResponse_message_precedence (response : Response) :
  (forall m, handleResponse response = inl (ServiceMessage m) ->
     truthy m = true
     /\ (forall s, m = JStr s -> s <> [])
     /\ exists data,
          resp_json response = Some data
          /\ (memberOf data (lit "errorMessage") = Some m
              \/ (memberOf data (lit "error") = Some m
                  /\ forall m', memberOf data (lit "errorMessage") = Some m' ->
                                truthy m' = false)))
  /\ (forall status, handleResponse response = inl (RequestFailed status) ->
        status = resp_status response
        /\ exists data,
             resp_json response = Some data
             /\ (forall m', memberOf data (lit "errorMessage") = Some m' -> truthy m' = false)
             /\ (forall m', memberOf data (lit "error") = Some m' -> truthy m' = false)).
Proof.
  destruct (handleResponse_failure_origin response) as [Hmsg Hstatus].
  split; [|exact Hstatus].
  intros m Hm. destruct (Hmsg m Hm) as [Ht Horigin].
  split; [exact Ht|]. split; [|exact Horigin].
  intros s -> ->. discriminate Ht.
Qed.

Example handleResponse_result_false_on_200 :
  handleResponse
    (mkResponse true 200 (lit "OK")
       (Some (JObj [(lit "result", JBool false); (lit "errorMessage", JStr []);
                    (lit "error", JStr (lit "not_found"))])))
  = inl (ServiceMessage (JStr (lit "not_found"))).
Proof. reflexivity. Qed.

Example handleResponse_cleans_titles :
  handleResponse
    (mkResponse true 200 (lit "OK")
       (Some (JObj [(lit "result", JBool true);
                    (lit "item", JObj [(lit "title", JStr (lit " 'A page' "))])])))
  = inr (JObj [(lit "result", JBool true);
               (lit "item", JObj [(lit "title", JStr (lit "A page"))])]).
Proof. reflexivity. Qed.

(* ====================================================================== *)
(** ** list-tags pagination: properties *)
(* ====================================================================== *)

Lemma slice_window {A} (l : list A) (start size : Z) :
  0 <= start -> 0 <= size ->
  slice l start (start + size) = take (Z.to_nat size) (drop (Z.to_nat start) l).
Proof.
  intros Hs Hp. unfold slice, sliceIndex.
  rewrite (proj2 (Z.ltb_ge start 0)) by lia.
  rewrite (proj2 (Z.ltb_ge (start + size) 0)) by lia.
  destruct (decide (length l <= Z.to_nat start)%nat) as [Hout|Hin].
  - replace (Z.to_nat (Z.min start (Z.of_nat (length l)))) with (length l) by lia.
    rewrite drop_all, (drop_ge l (Z.to_nat start)) by done.
    by rewrite !take_nil.
  - replace (Z.to_nat (Z.min start (Z.of_nat (length l)))) with (Z.to_nat start) by lia.
    destruct (decide (Z.to_nat size <= length l - Z.to_nat start)%nat) as [Hfit|Hcut].
    + f_equal. lia.
    + rewrite !take_ge; [done | rewrite length_drop; lia | rewrite length_drop; lia].
Qed.

(** A page, for a page number and a page size that are not negative: the
    items are the next [perpage] tags after skipping [page * perpage], or
    what is left of them; [count] never exceeds [perpage], and [total] is
    the length of the whole list. *)
Theorem listTags_page_window (result : TagsResponse) (page perpage : Z) :
  0 <= page -> 0 <= perpage ->
  paginatedItems result page perpage
  = take (Z.to_nat perpage)
      (drop (Z.to_nat (page * perpage)) (default [] (tg_items result)))
  /\ obj_get (paginatedResult result page perpage) (lit "items")
     = Some (JArr (paginatedItems result page perpage))
  /\ obj_get (paginatedResult result page perpage) (lit "count")
     = Some (JNum (Z.of_nat (length (paginatedItems result page perpage))))
  /\ Z.of_nat (length (paginatedItems result page perpage)) <= perpage
  /\ obj_get (paginatedResult result page perpage) (lit "total")
     = Some (JNum (Z.of_nat (length (default [] (tg_items result))))).
Proof.
  intros Hpage Hper.
  assert (Hwin : paginatedItems result page perpage
                 = take (Z.to_nat perpage)
                     (drop (Z.to_nat (page * perpage)) (default [] (tg_items result)))).
  { unfold paginatedItems. apply slice_window; lia. }
  split; [exact Hwin|]. split; [reflexivity|]. split; [reflexivity|].
  split; [|reflexivity].
  rewrite Hwin, length_take. lia.
Qed.

Lemma listTags_page_window_witness :
  let result := mkTagsResponse true
                  (Some [JStr (lit "a"); JStr (lit "b"); JStr (lit "c");
                         JStr (lit "d"); JStr (lit "e")]) in
  0 <= 2 /\ 0 <= 2
  /\ paginatedItems result 2 2
     = take (Z.to_nat 2) (drop (Z.to_nat (2 * 2)) (default [] (tg_items result)))
  /\ paginatedItems result 2 2 = [JStr (lit "e")].
Proof.
  split; [lia|]. split; [lia|].
  destruct (listTags_page_window
              (mkTagsResponse true
                 (Some [JStr (lit "a"); JStr (lit "b"); JStr (lit "c");
                        JStr (lit "d"); JStr (lit "e")])) 2 2) as [Hwin _]; [lia | lia |].
  split; [exact Hwin | reflexivity].
Defined.

(** Walking the pages loses and repeats nothing: the first [n] pages, one
    after the other, are the first [n * perpage] tags, hence the whole list
    once [n * perpage] reaches its length. *)
Theorem listTags_pages_concatenate (result : TagsResponse) (perpage : Z) (n : nat) :
  0 <= perpage ->
  concat (map (fun p => paginatedItems result (Z.of_nat p) perpage) (seq 0 n))
  = take (n * Z.to_nat perpage) (default [] (tg_items result))
  /\ ((length (default [] (tg_items result)) <= n * Z.to_nat perpage)%nat ->
      concat (map (fun p => paginatedItems result (Z.of_nat p) perpage) (seq 0 n))
      = default [] (tg_items result)).
Proof.
  intros Hper.
  assert (Hcat : concat (map (fun p => paginatedItems result (Z.of_nat p) perpage) (seq 0 n))
                 = take (n * Z.to_nat perpage) (default [] (tg_items result))).
  { induction n as [|n IH]; [done|].
    rewrite seq_S, map_app, concat_app, IH. simpl. rewrite app_nil_r.
    unfold paginatedItems. rewrite slice_window by lia.
    replace (Z.to_nat (Z.of_nat n * perpage)) with (n * Z.to_nat perpage)%nat by lia.
    rewrite take_take_drop. f_equal. lia. }
  split; [exact Hcat|].
  intros Hall. rewrite Hcat. by apply take_ge.
Qed.

Lemma listTags_pages_concatenate_witness :
  let result := mkTagsResponse true
                  (Some [JStr (lit "a"); JStr (lit "b"); JStr (lit "c");
                         JStr (lit "d"); JStr (lit "e")]) in
  0 <= 2
  /\ concat (map (fun p => paginatedItems result (Z.of_nat p) 2) (seq 0 3))
     = take (3 * Z.to_nat 2) (default [] (tg_items result)).
Proof.
  split; [lia|].
  destruct (listTags_pages_concatenate
              (mkTagsResponse true
                 (Some [JStr (lit "a"); JStr (lit "b"); JStr (lit "c");
                        JStr (lit "d"); JStr (lit "e")])) 2 3) as [Hcat _]; [lia|].
  exact Hcat.
Defined.

(** [hasMore], for a page number and page size that are not negative. When
    it is false the page runs to the end of the list: nothing lies beyond
    it. When it is true the page is full and tags remain after it. *)
Theorem listTags_hasMore (result : TagsResponse) (page perpage : Z) :
  0 <= page -> 0 <= perpage ->
  (hasMore result page perpage = false ->
     paginatedItems result page perpage
     = drop (Z.to_nat (page * perpage)) (default [] (tg_items result)))
  /\ (hasMore result page perpage = true ->
        Z.of_nat (length (paginatedItems result page perpage)) = perpage
        /\ drop (Z.to_nat (page * perpage + perpage)) (default [] (tg_items result)) <> []).
Proof.
  intros Hpage Hper. unfold hasMore, paginatedItems.
  rewrite slice_window by lia. split.
  - intros Hlast%Z.ltb_ge. apply take_ge. rewrite length_drop. lia.
  - intros Hmore%Z.ltb_lt. split.
    + rewrite length_take, length_drop. lia.
    + intros Hnil. apply (f_equal length) in Hnil.
      rewrite length_drop in Hnil. simpl in Hnil. lia.
Qed.

Lemma listTags_hasMore_witness :
  let result := mkTagsResponse true
                  (Some [JStr (lit "a"); JStr (lit "b"); JStr (lit "c")]) in
  0 <= 1 /\ 0 <= 2
  /\ (hasMore result 1 2 = false ->
        paginatedItems result 1 2
        = drop (Z.to_nat (1 * 2)) (default [] (tg_items result)))
  /\ hasMore result 1 2 = false
  /\ hasMore result 0 2 = true.
Proof.
  split; [lia|]. split; [lia|].
  destruct (listTags_hasMore
              (mkTagsResponse true (Some [JStr (lit "a"); JStr (lit "b"); JStr (lit "c")]))
              1 2) as [Hlast _]; [lia | lia |].
  split; [exact Hlast|]. split; reflexivity.
Defined.

Example listTags_metadata_only :
  listTagsResult
    (mkTagsResponse true (Some [JObj [(lit "_id", JStr (lit "a")); (lit "count", JNum 4)];
                                JObj [(lit "_id", JStr (lit "b")); (lit "count", JNum 1)]]))
    None (Some 1) (Some [])
  = inr [(lit "result", JBool true); (lit "count", JNum 1); (lit "total", JNum 2);
         (lit "page", JNum 0); (lit "perpage", JNum 1); (lit "hasMore", JBool true)].
Proof. reflexivity. Qed.

Example listTags_past_the_end :
  listTagsResult (mkTagsResponse true (Some [JStr (lit "a")])) (Some 3) None None
  = inr [(lit "result", JBool true); (lit "items", JArr []); (lit "count", JNum 0);
         (lit "total", JNum 1); (lit "page", JNum 3); (lit "perpage", JNum 25);
         (lit "hasMore", JBool false)].
Proof. reflexivity. Qed.

(* ====================================================================== *)
(** ** Further derived operations: properties *)
(* ====================================================================== *)

(** The cache URL is returned exactly when the bookmark is fetched, its
    cache status is the string "ready", and the cache request answers 307
    with a non-empty [Location], which is then the URL. And the cache
    request is made only for a bookmark whose cache status is "ready";
    otherwise the call ends after the fetch of the bookmark. *)
Theorem getCacheUrl_outcomes
    (getRaindropAnswer : Error + RaindropResponse)
    (cacheAnswer : Error + RedirectResponse) (raindropId : Z) :
  (forall r,
     (getCacheUrl getRaindropAnswer cacheAnswer raindropId).1 = inr r
     <-> exists raindrop cache response,
           getRaindropAnswer = inr raindrop
           /\ obj_get (rd_other (rr_item raindrop)) (lit "cache") = Some cache
           /\ memberOf cache (lit "status") = Some (JStr (lit "ready"))
           /\ cacheAnswer = inr response
           /\ redirect_status response = 307
           /\ redirect_location response = Some (cr_url r)
           /\ cr_url r <> []
           /\ cr_status r = lit "ready")
  /\ (CacheFetch raindropId ∈ (getCacheUrl getRaindropAnswer cacheAnswer raindropId).2
      <-> exists raindrop cache,
            getRaindropAnswer = inr raindrop
            /\ obj_get (rd_other (rr_item raindrop)) (lit "cache") = Some cache
            /\ memberOf cache (lit "status") = Some (JStr (lit "ready"))).
Proof.
  assert (Hready : forall cache : option json,
            match cache with
            | Some c => truthy c
                        && match memberOf c (lit "status") with
                           | Some (JStr status) => bool_decide (status = lit "ready")
                           | _ => false
                           end
            | None => false
            end = true
            <-> exists c, cache = Some c
                          /\ memberOf c (lit "status") = Some (JStr (lit "ready"))).
  { intros [c|]; [|split; [done | by intros (? & ? & _)]]. split.
    - intros [_ Hst]%andb_true_iff. exists c. split; [done|].
      destruct (memberOf c (lit "status")) as [[| | | status | | |]|]; try done.
      apply bool_decide_eq_true in Hst. by subst.
    - intros (c' & [= <-] & Hst). rewrite Hst.
      destruct c; try done; simpl; by apply bool_decide_eq_true. }
  unfold getCacheUrl. destruct getRaindropAnswer as [error|raindrop].
  { split.
    - intros r. split; [done | by intros (? & ? & ? & ? & _)].
    - simpl. split.
      + intros [?|?%elem_of_nil]%elem_of_cons; done.
      + by intros (? & ? & ? & _). }
  specialize (Hready (obj_get (rd_other (rr_item raindrop)) (lit "cache"))).
  destruct (match obj_get (rd_other (rr_item raindrop)) (lit "cache") with
            | Some c => _
            | None => false
            end) eqn:Hr; simpl.
  - destruct (proj1 Hready eq_refl) as (cache & Hcache & Hst).
    split.
    + intros r. destruct cacheAnswer as [error|response]; simpl.
      * split; [done | by intros (? & ? & ? & _ & _ & _ & ? & _)].
      * split.
        -- destruct (redirect_location response) as [[|c location]|] eqn:Hloc; try done.
           destruct (redirect_status response =? 307) eqn:H307; [|done].
           intros [= <-]. exists raindrop, cache, response. simpl.
           repeat split; try done. by apply Z.eqb_eq.
        -- intros (raindrop' & cache' & response' & [= <-] & _ & _ & [= <-] & H307 & Hloc & Hne & Hs).
           rewrite Hloc. destruct r as [url status]. simpl in *.
           destruct url; [done|]. rewrite H307. simpl. by subst.
    + split.
      * intros _. by exists raindrop, cache.
      * intros _. destruct cacheAnswer; simpl;
          apply elem_of_cons; right; apply list_elem_of_here.
  - assert (Hnot : ~ exists c,
               obj_get (rd_other (rr_item raindrop)) (lit "cache") = Some c
               /\ memberOf c (lit "status") = Some (JStr (lit "ready"))).
    { intros Hex. apply Hready in Hex. done. }
    split.
    + intros r. split; [done|].
      intros (raindrop' & cache & response & [= <-] & Hcache & Hst & _).
      exfalso. apply Hnot. by exists cache.
    + split.
      * intros [?|?%elem_of_nil]%elem_of_cons; done.
      * intros (raindrop' & cache & [= <-] & Hcache & Hst).
        exfalso. apply Hnot. by exists cache.
Qed.

Example getCacheUrl_not_ready :
  getCacheUrl
    (inr (mkRaindropResponse true
            (mkRaindrop None None
               [(lit "cache", JObj [(lit "status", JStr (lit "retry"))])])))
    (inr (mkRedirectResponse 307 (Some (lit "https://cache.example/1")))) 1
  = (inl (CacheNotAvailable 1 (Some (JStr (lit "retry")))), [CacheGetRaindrop 1]).
Proof. reflexivity. Qed.

Example getCacheUrl_redirect :
  getCacheUrl
    (inr (mkRaindropResponse true
            (mkRaindrop None None
               [(lit "cache", JObj [(lit "status", JStr (lit "ready"))])])))
    (inr (mkRedirectResponse 307 (Some (lit "https://cache.example/1")))) 1
  = (inr (mkCacheResponse (lit "https://cache.example/1") (lit "ready")),
     [CacheGetRaindrop 1; CacheFetch 1]).
Proof. reflexivity. Qed.

Example getCacheUrl_followed_redirect :
  (getCacheUrl
     (inr (mkRaindropResponse true
             (mkRaindrop None None
                [(lit "cache", JObj [(lit "status", JStr (lit "ready"))])])))
     (inr (mkRedirectResponse 200 None)) 1).1
  = inl (UnexpectedCacheResponse 200).
Proof. reflexivity. Qed.

(** [uploadFile] sends its request exactly when the file exists, is at most
    300 MiB and its extension is one of the nine of the table; the content
    type is then the table's. Otherwise it throws before sending anything,
    and the checks come in order: a missing file is reported whatever its
    size and extension, and an oversized file whatever its extension. *)
Theorem uploadFileRequest_checks (file : FileInfo) (collectionId : option Z) :
  (forall request,
     uploadFileRequest file collectionId = inr request
     <-> fi_exists file = true
         /\ fi_size file <= 314572800
         /\ fi_ext file ∈ obj_keys mimeTypes
         /\ obj_get mimeTypes (fi_ext file) = Some (ur_contentType request)
         /\ ur_collectionId request = collectionId)
  /\ (fi_exists file = false -> uploadFileRequest file collectionId = inl FileNotFound)
  /\ (fi_exists file = true -> 314572800 < fi_size file ->
      uploadFileRequest file collectionId = inl (FileTooLarge (fi_size file))).
Proof.
  unfold uploadFileRequest.
  assert (Hmax : maxSize = 314572800) by reflexivity. rewrite Hmax.
  assert (Htruthy : forall v, obj_get mimeTypes (fi_ext file) = Some v -> truthy v = true).
  { intros v. unfold mimeTypes. simpl.
    repeat (case_decide; [by intros [= <-]|]). done. }
  split; [|split].
  - intros request. destruct (fi_exists file); cbn [negb].
    2:{ split; [done | by intros [? _]]. }
    destruct (314572800 <? fi_size file) eqn:Hsize.
    { apply Z.ltb_lt in Hsize. split; [done | intros (_ & ? & _); lia]. }
    apply Z.ltb_ge in Hsize.
    destruct (obj_get mimeTypes (fi_ext file)) as [contentType|] eqn:Hct.
    + rewrite (Htruthy _ eq_refl). split.
      * intros [= <-]. cbn [ur_contentType ur_collectionId].
        split; [done|]. split; [done|]. split; [|done].
        apply obj_get_keys. by eexists.
      * intros (_ & _ & _ & [= ->] & <-). by destruct request.
    + split; [done|]. intros (_ & _ & Hin%obj_get_keys & _).
      rewrite Hct in Hin. by destruct Hin.
  - by intros ->.
  - intros -> Hsize%Z.ltb_lt. cbn [negb]. by rewrite Hsize.
Qed.

Example uploadFile_txt_rejected :
  uploadFileRequest (mkFileInfo true 10 (lit ".txt")) None
  = inl (UnsupportedFileType (lit ".txt")).
Proof. reflexivity. Qed.

Example uploadFile_exactly_at_limit :
  uploadFileRequest (mkFileInfo true 314572800 (lit ".pdf")) (Some 5)
  = inr (mkUploadRequest (JStr (lit "application/pdf")) (Some 5)).
Proof. reflexivity. Qed.

(** Highlight create only appends. When the bookmark is fetched, one update
    follows whose array is one longer than the fetched one, keeps every
    fetched highlight at its position, and ends with the new highlight
    carrying the given text; no colour, or an empty one, gives "yellow", and
    no note gives the empty note. When the fetch throws, nothing is
    written. *)
Theorem createHighlight_appends
    (getRaindropAnswer : Error + RaindropResponse)
    (updateAnswer : list (Highlight + NewHighlight) -> Error + RaindropResponse)
    (raindropId : Z) (text : jsstring) (color note : option jsstring) :
  (forall raindrop,
     getRaindropAnswer = inr raindrop ->
     exists written new,
       createHighlight getRaindropAnswer updateAnswer raindropId text color note
       = (updateAnswer written,
          [HighlightGetRaindrop raindropId; HighlightPutRaindrop raindropId written])
       /\ length written = S (length (existingHighlightsOf raindrop))
       /\ (forall i h, existingHighlightsOf raindrop !! i = Some h ->
                       written !! i = Some (inl h))
       /\ written !! length (existingHighlightsOf raindrop) = Some (inr new)
       /\ nh_text new = text
       /\ (color = None \/ color = Some [] -> nh_color new = lit "yellow")
       /\ (forall c, color = Some c -> c <> [] -> nh_color new = c)
       /\ (note = None -> nh_note new = []))
  /\ (forall error,
        getRaindropAnswer = inl error ->
        createHighlight getRaindropAnswer updateAnswer raindropId text color note
        = (inl error, [HighlightGetRaindrop raindropId])).
Proof.
  split.
  - intros raindrop ->.
    exists (map inl (existingHighlightsOf raindrop)
            ++ [inr (mkNewHighlight text (orDefault color (lit "yellow"))
                       (orDefault note []))]),
      (mkNewHighlight text (orDefault color (lit "yellow")) (orDefault note [])).
    split; [done|].
    split; [rewrite length_app, length_map; simpl; lia|].
    split.
    { intros i h Hi. rewrite lookup_app_l.
      - by rewrite list_lookup_fmap, Hi.
      - rewrite length_map. by eapply lookup_lt_Some. }
    split.
    { rewrite lookup_app_r by (by rewrite length_map).
      by rewrite length_map, Nat.sub_diag. }
    simpl. split; [done|]. split.
    + by intros [->| ->].
    + split; [|by intros ->]. intros c -> Hc. by destruct c.
  - by intros error ->.
Qed.

Example createHighlight_first_highlight :
  createHighlight
    (inr (mkRaindropResponse true (mkRaindrop None None [])))
    (fun _ => inl unreachable) 1 (lit "quote") None (Some (lit "why"))
  = (inl unreachable,
     [HighlightGetRaindrop 1;
      HighlightPutRaindrop 1
        [inr (mkNewHighlight (lit "quote") (lit "yellow") (lit "why"))]]).
Proof. reflexivity. Qed.

(** The merge-tags tool sends nothing unless there is at least one tag and
    the new name has a character that is not whitespace: it throws, and an
    empty tag list is reported before a blank name. Otherwise it sends
    exactly one request, with the tags and the new name as given, not
    trimmed. *)
Theorem mergeTagsTool_validates_first
    (mergeAnswer : MergeRequest -> Error + bool)
    (tags : option (list jsstring)) (newTag : jsstring) (collectionId : option Z)
    (minimal : bool) :
  ((tags = None \/ tags = Some []) ->
   mergeTagsTool mergeAnswer tags newTag collectionId minimal = (inl TagsRequired, []))
  /\ (forall tag others,
        tags = Some (tag :: others) -> trim newTag = [] ->
        mergeTagsTool mergeAnswer tags newTag collectionId minimal
        = (inl NewTagRequired, []))
  /\ (forall tag others,
        tags = Some (tag :: others) -> trim newTag <> [] ->
        (mergeTagsTool mergeAnswer tags newTag collectionId minimal).2
        = [mkMergeRequest collectionId (tag :: others) newTag]).
Proof.
  split; [|split].
  - by intros [->| ->].
  - intros tag others -> Hblank. unfold mergeTagsTool.
    destruct newTag as [|c rest]; [done|]. by rewrite Hblank.
  - intros tag others -> Hname. unfold mergeTagsTool.
    destruct newTag as [|c newTag]; [done|].
    destruct (trim (c :: newTag)) as [|c' t] eqn:Htrim; [done|].
    by destruct (mergeAnswer _).
Qed.

Example mergeTags_blank_name :
  mergeTagsTool (fun _ => inr true) (Some [lit "js"; lit "JS"]) (lit "  ") None false
  = (inl NewTagRequired, []).
Proof. reflexivity. Qed.

Example mergeTags_rename :
  mergeTagsTool (fun _ => inr true) (Some [lit "js"]) (lit " JavaScript ") (Some 7) false
  = (inr TagRenamed, [mkMergeRequest (Some 7) [lit "js"] (lit " JavaScript ")]).
Proof. reflexivity. Qed.

Example mergeTags_two_tags :
  (mergeTagsTool (fun _ => inr true) (Some [lit "js"; lit "JS"]) (lit "JavaScript") None false).1
  = inr (TagsMerged 2 (lit "JavaScript")).
Proof. reflexivity. Qed.
